(** * Electrum [lib/interface.py]: the single-server session and the
      certificate diagnostic

    A shallow embedding of [class Interface] and [check_cert].

    - Python values that travel through an [Interface] (decoded JSON
      messages, the argument tuples given to [queue_request]) are the
      inductive [pyval]; a dict with string keys is a [gmap string pyval].
    - [self.unanswered_requests] is a Python dict: a [gmap] keyed by the
      hashable values [key], with [hash_key] giving the key a value hashes
      to ([True] and [1] are one key, lists and dicts are unhashable).
    - [time.time()] is an explicit argument [now]; clock readings are exact
      rationals ([Q]), so rounding of floats is outside the model.
    - [self] is threaded explicitly.  A coroutine ends in an [outcome]: it
      returns, raises, or stays suspended in an [await].
    - Console output ([print], [print_error]) of the [Interface] methods is
      not part of the state; [check_cert], whose whole purpose is its
      output, writes to an explicit log. *)

From Stdlib Require Import QArith Lqa ZArith.
From stdpp Require Import gmap strings list fin_maps.

#[local] Open Scope Z_scope.

(** ** Python values *)

#[local] Unset Elimination Schemes.
Inductive pyval : Type :=
| PNone
| PBool (b : bool)
| PInt (z : Z)
| PStr (s : string)
| PList (l : list pyval)
| PDict (d : gmap string pyval).
#[local] Set Elimination Schemes.

(** Hashable values, as they serve as dict keys. *)
Inductive key : Type :=
| KNone
| KInt (z : Z)
| KStr (s : string).

#[global] Instance key_eq_dec : EqDecision key.
Proof. solve_decision. Defined.

#[global] Instance key_countable : Countable key.
Proof.
  refine (inj_countable'
            (fun k => match k with
                      | KNone => inl tt
                      | KInt z => inr (inl z)
                      | KStr s => inr (inr s)
                      end)
            (fun x => match x with
                      | inl _ => KNone
                      | inr (inl z) => KInt z
                      | inr (inr s) => KStr s
                      end) _).
  by intros [].
Defined.

(** [hash(v)] followed by [==]: the key under which [v] is looked up in a
    dict, or [None] when [v] is unhashable ([TypeError]).  [bool] is a
    subclass of [int]: [True == 1] and [False == 0]. *)
Definition hash_key (v : pyval) : option key :=
  match v with
  | PNone => Some KNone
  | PBool b => Some (KInt (if b then 1 else 0))
  | PInt z => Some (KInt z)
  | PStr s => Some (KStr s)
  | PList _ => None
  | PDict _ => None
  end.

(** [v is None] *)
Definition is_None (v : pyval) : bool :=
  match v with PNone => true | _ => false end.

(** [d.get(k, default)] *)
Definition dict_get (d : gmap string pyval) (k : string) (default : pyval) : pyval :=
  match d !! k with
  | Some v => v
  | None => default
  end.

(** A request is the tuple [args] that [queue_request] is called with; by
    the comment in the source it is [(method, params, _id)]. *)
Abbreviation request := (list pyval).

(** Truth value of a tuple: non-empty. *)
Definition tuple_truthy (t : request) : bool :=
  match t with [] => false | _ :: _ => true end.

(** Truth value of [d.pop(k, None)]: [None] is false, a tuple is true when
    non-empty. *)
Definition popped_truthy (r : option request) : bool :=
  match r with
  | None => false
  | Some t => tuple_truthy t
  end.

(** Exceptions that the modelled code can raise. *)
Inductive exn : Type :=
| TypeError
| NameError
| AttributeError
| IndexError
| OSError
| OtherError (name : string).

(** [a > b] on clock readings. *)
Definition Qgtb (a b : Q) : bool := negb (Qle_bool a b).

(** ** The transport *)

(** Modelled from the spec: [aio.SocketPipe] is not among the sources; the
    transport is taken through its capability contract, "[send_all(messages)
    -> success/failure], [receive() -> decoded message | closed-sentinel]
    (suspends until available), [idle_time() -> seconds since last
    activity]".  [incoming] holds the values that [get()] will deliver, in
    order; on an empty [incoming] a caller of [get()] stays suspended.
    [broken] makes [send_all] raise; [idle] is the reading of
    [idle_time()], "time since the transport last observed any traffic in
    either direction": a write sets it back to zero, and the passing of
    time and the arrival of messages are changes of the pipe that come
    from outside the session. *)
Record SocketPipe : Type := {
  incoming : list pyval;
  sent : list pyval;
  idle : Q;
  broken : bool
}.

Definition pipe_get (p : SocketPipe) : option (pyval * SocketPipe) :=
  match incoming p with
  | [] => None
  | v :: rest =>
      Some (v, {| incoming := rest; sent := sent p; idle := idle p; broken := broken p |})
  end.

Definition pipe_send_all (msgs : list pyval) (p : SocketPipe) : exn + SocketPipe :=
  if broken p then inl OSError
  else inr {| incoming := incoming p; sent := sent p ++ msgs;
              idle := 0%Q; broken := broken p |}.

Definition pipe_idle_time (p : SocketPipe) : Q := idle p.

(** ** The session *)

Record Interface : Type := {
  server : string;
  pipe : SocketPipe;
  debug : bool;
  (** [asyncio.PriorityQueue] of [(request_time, args)], smallest first *)
  unsent_requests : list (Q * request);
  unanswered_requests : gmap key request;
  last_request : Q;
  last_ping : Q;
  closed_remotely : bool;
  (** [self.request_time] is first bound by [queue_request] *)
  request_time : option Q
}.

Definition set_pipe (p : SocketPipe) (self : Interface) : Interface :=
  {| server := server self; pipe := p; debug := debug self;
     unsent_requests := unsent_requests self;
     unanswered_requests := unanswered_requests self;
     last_request := last_request self; last_ping := last_ping self;
     closed_remotely := closed_remotely self;
     request_time := request_time self |}.

Definition set_unsent_requests (q : list (Q * request)) (self : Interface) : Interface :=
  {| server := server self; pipe := pipe self; debug := debug self;
     unsent_requests := q;
     unanswered_requests := unanswered_requests self;
     last_request := last_request self; last_ping := last_ping self;
     closed_remotely := closed_remotely self;
     request_time := request_time self |}.

Definition set_unanswered_requests (m : gmap key request) (self : Interface) : Interface :=
  {| server := server self; pipe := pipe self; debug := debug self;
     unsent_requests := unsent_requests self;
     unanswered_requests := m;
     last_request := last_request self; last_ping := last_ping self;
     closed_remotely := closed_remotely self;
     request_time := request_time self |}.

Definition set_last_ping (t : Q) (self : Interface) : Interface :=
  {| server := server self; pipe := pipe self; debug := debug self;
     unsent_requests := unsent_requests self;
     unanswered_requests := unanswered_requests self;
     last_request := last_request self; last_ping := t;
     closed_remotely := closed_remotely self;
     request_time := request_time self |}.

Definition set_closed_remotely (b : bool) (self : Interface) : Interface :=
  {| server := server self; pipe := pipe self; debug := debug self;
     unsent_requests := unsent_requests self;
     unanswered_requests := unanswered_requests self;
     last_request := last_request self; last_ping := last_ping self;
     closed_remotely := b;
     request_time := request_time self |}.

Definition set_request_time (t : Q) (self : Interface) : Interface :=
  {| server := server self; pipe := pipe self; debug := debug self;
     unsent_requests := unsent_requests self;
     unanswered_requests := unanswered_requests self;
     last_request := last_request self; last_ping := last_ping self;
     closed_remotely := closed_remotely self;
     request_time := Some t |}.

(** How a call ends.  [F] is the type of the local variables that a
    suspended coroutine keeps in its frame. *)
Inductive outcome (F A : Type) : Type :=
| Returned (a : A) (self : Interface)
| Awaiting (frame : F) (self : Interface)
| Raised (e : exn) (self : Interface).
Arguments Returned {F A} a self.
Arguments Awaiting {F A} frame self.
Arguments Raised {F A} e self.

(** [Interface.__init__], with the connected pipe and the clock reading
    given.  [self.host], split off [server] for the diagnostics, is left
    out. *)
Definition Interface_init (now : Q) (server : string) (p : SocketPipe) : Interface :=
  {| server := server; pipe := p; debug := false;
     unsent_requests := [];
     unanswered_requests := ∅;
     last_request := now; last_ping := 0%Q;
     closed_remotely := false;
     request_time := None |}.

(** [PriorityQueue.put]: the entry goes behind the entries that are not
    larger.  Entries are compared on their time stamp; among equal stamps
    the order of arrival is kept.  The queue of [asyncio] is a heap of the
    tuples [(request_time, args)]: where two stamps are equal it goes on to
    compare the [args], which orders the tie by them or raises [TypeError]
    when they do not compare.  The list stands for the heap wherever the
    stamps decide, and for its length always; what is proved of the order
    of the queue below is about stamps. *)
Fixpoint queue_put (e : Q * request) (q : list (Q * request)) : list (Q * request) :=
  match q with
  | [] => [e]
  | e' :: q' => if Qgtb (fst e') (fst e) then e :: q else e' :: queue_put e q'
  end.

Definition queue_request (now : Q) (args : request) (self : Interface) : Interface :=
  let self := set_request_time now self in
  set_unsent_requests (queue_put (now, args) (unsent_requests self)) self.

Definition num_requests (self : Interface) : Z :=
  let n := 100 - Z.of_nat (size (unanswered_requests self)) in
  Z.min n (Z.of_nat (length (unsent_requests self))).

(** [make_dict] applied to the unpacked request: the lambda takes exactly
    three arguments. *)
Definition make_dict (req : request) : exn + pyval :=
  match req with
  | [m; p; i] =>
      inr (PDict (<["method" := m]> (<["params" := p]> (<["id" := i]> ∅))))
  | _ => inl TypeError
  end.

(** [send_request].  The handler of the [try] evaluates the unbound name
    [r] before it reaches [sys.exit]. *)
Definition send_request (self : Interface) : outcome Z bool :=
  let n := num_requests self in
  match unsent_requests self with
  | [] => Awaiting n self
  | (prio, req) :: rest =>
      let self := set_unsent_requests rest self in
      let written :=
        match make_dict req with
        | inl e => inl e
        | inr d => pipe_send_all [d] (pipe self)
        end in
      match written with
      | inl _ => Raised NameError self
      | inr p =>
          let self := set_pipe p self in
          match req !! 2%nat with
          | None => Raised IndexError self
          | Some i =>
              match hash_key i with
              | None => Raised TypeError self
              | Some k =>
                  Returned true
                    (set_unanswered_requests (<[k := req]> (unanswered_requests self)) self)
              end
          end
      end
  end.

Definition ping_required (now : Q) (self : Interface) : bool * Interface :=
  if Qgtb (now - last_ping self) 60 then (true, set_last_ping now self)
  else (false, self).

(** [has_timed_out]; [and] evaluates left to right and stops at the first
    false operand, so [self.request_time] is read only when there are
    unanswered requests. *)
Definition has_timed_out (now : Q) (self : Interface) : exn + bool :=
  if bool_decide (unanswered_requests self = ∅) then inr false
  else
    match request_time self with
    | None => inl AttributeError
    | Some t =>
        if Qgtb (now - t) 10 then
          if Qgtb (pipe_idle_time (pipe self)) 10 then inr true else inr false
        else inr false
    end.

(** One entry of the list that [get_responses] returns: the Python pair
    [(request, response)], either component possibly [None]. *)
Abbreviation response_pair := (option request * option pyval)%type.

(** What the body of the [while True] loop does with the value that
    [self.pipe.get()] delivered. *)
Inductive loop_step : Type :=
| Continue (responses : list response_pair) (self : Interface)
| Break (responses : list response_pair) (self : Interface)
| Throw (e : exn) (self : Interface).

Definition get_responses_body (response : pyval) (responses : list response_pair)
    (self : Interface) : loop_step :=
  match response with
  | PDict d =>
      let wire_id := dict_get d "id" PNone in
      if is_None wire_id then
        Continue (responses ++ [(None, Some response)]) self
      else
        match hash_key wire_id with
        | None => Throw TypeError self
        | Some k =>
            let req := unanswered_requests self !! k in
            let self := set_unanswered_requests (delete k (unanswered_requests self)) self in
            if popped_truthy req then
              Continue (responses ++ [(req, Some response)]) self
            else
              Break (responses ++ [(None, None)]) self
        end
  | _ =>
      let responses := responses ++ [(None, None)] in
      if is_None response then Break responses (set_closed_remotely true self)
      else Break responses self
  end.

(** The loop of [get_responses], over the values that the pipe has to
    deliver.  Each round takes one value off the pipe; when none is left the
    coroutine stays suspended in [await self.pipe.get()] with [responses] in
    its frame. *)
Fixpoint get_responses_loop (inbox : list pyval) (responses : list response_pair)
    (self : Interface) : outcome (list response_pair) (list response_pair) :=
  match inbox with
  | [] => Awaiting responses self
  | response :: inbox =>
      let p := pipe self in
      let self :=
        set_pipe {| incoming := inbox; sent := sent p; idle := idle p; broken := broken p |}
                 self in
      match get_responses_body response responses self with
      | Continue responses self => get_responses_loop inbox responses self
      | Break responses self => Returned responses self
      | Throw e self => Raised e self
      end
  end.

(** The coroutine at the head of its loop, with [responses] accumulated so
    far. *)
Definition get_responses_from (responses : list response_pair) (self : Interface)
    : outcome (list response_pair) (list response_pair) :=
  get_responses_loop (incoming (pipe self)) responses self.

Definition get_responses (self : Interface) : outcome (list response_pair) (list response_pair) :=
  get_responses_from [] self.

(** The value a call returned, if it returned. *)
Definition returned_value {F A : Type} (o : outcome F A) : option A :=
  match o with
  | Returned a _ => Some a
  | _ => None
  end.

(** The state in which a call leaves the session. *)
Definition state_of {F A : Type} (o : outcome F A) : Interface :=
  match o with
  | Returned _ self => self
  | Awaiting _ self => self
  | Raised _ self => self
  end.

(** ** Invariant of the session *)

(** What [send_request] guarantees about the table of unanswered requests:
    every entry is a triple filed under the key of its third component, and
    [request_time] is bound as soon as there is an entry. *)
Definition well_formed (self : Interface) : Prop :=
  (forall k req, unanswered_requests self !! k = Some req ->
     exists m p i, req = [m; p; i] /\ hash_key i = Some k) /\
  (unanswered_requests self <> ∅ -> is_Some (request_time self)) /\
  (unsent_requests self <> [] -> is_Some (request_time self)).

(** ** Timed traces of calls *)

(** What a caller, or the network, does to a session at some instant. *)
Inductive call : Type :=
| QueueRequest (args : request)
| SendRequest
| PingRequired
| GetResponses
| Network (p : SocketPipe).

Definition run_call (now : Q) (c : call) (self : Interface) : Interface :=
  match c with
  | QueueRequest args => queue_request now args self
  | SendRequest => state_of (send_request self)
  | PingRequired => snd (ping_required now self)
  | GetResponses => state_of (get_responses self)
  | Network p => set_pipe p self
  end.

Fixpoint run (calls : list (Q * call)) (self : Interface) : Interface :=
  match calls with
  | [] => self
  | (now, c) :: calls => run calls (run_call now c self)
  end.

(** The spec's "last request send time", in the spec's words: the instant
    of the latest [send_request] that wrote a request to the transport and
    returned success.  The source keeps no such stamp; this definition reads
    it off the trace, to be compared with what [has_timed_out] uses. *)
Fixpoint spec_last_request_send_time (calls : list (Q * call)) (self : Interface)
    (last : option Q) : option Q :=
  match calls with
  | [] => last
  | (now, c) :: calls =>
      let last :=
        match c with
        | SendRequest =>
            match send_request self with
            | Returned true _ => Some now
            | _ => last
            end
        | _ => last
        end in
      spec_last_request_send_time calls (run_call now c self) last
  end.

(** The instant of the latest [queue_request] of a trace. *)
Fixpoint last_queue_request_time (calls : list (Q * call)) (last : option Q) : option Q :=
  match calls with
  | [] => last
  | (now, QueueRequest _) :: calls => last_queue_request_time calls (Some now)
  | _ :: calls => last_queue_request_time calls last
  end.

(** The results of calling [ping_required] at the instants [ts], one after
    the other. *)
Fixpoint ping_results (ts : list Q) (self : Interface) : list bool :=
  match ts with
  | [] => []
  | t :: ts =>
      let r := ping_required t self in
      fst r :: ping_results ts (snd r)
  end.

(** ** [check_cert] *)

(** What [check_cert] writes to standard output: a traceback
    ([traceback.print_exc]) or a message ([util.print_msg]). *)
Inductive event : Type :=
| PrintExc (e : exn)
| PrintMsg (m : string).

(** Code that may raise and that writes to standard output. *)
Definition io (A : Type) : Type := list event -> (exn + A) * list event.

#[global] Instance io_ret : MRet io := fun A a log => (inr a, log).

#[global] Instance io_bind : MBind io := fun A B f m log =>
  match m log with
  | (inl e, log') => (inl e, log')
  | (inr a, log') => f a log'
  end.

(** A call into a library, which returns or raises. *)
Definition lift {A : Type} (r : exn + A) : io A := fun log => (r, log).

(** [try: body except: handler] with a bare [except], which catches every
    exception. *)
Definition try_except {A : Type} (body : io A) (handler : exn -> io A) : io A :=
  fun log =>
    match body log with
    | (inl e, log') => handler e log'
    | (inr a, log') => (inr a, log')
    end.

Definition print_exc (e : exn) : io unit := fun log => (inr tt, log ++ [PrintExc e]).

Definition print_msg (m : string) : io unit := fun log => (inr tt, log ++ [PrintMsg m]).

Definition newline : string := String (Ascii.ascii_of_nat 10) "".

(** [str(b)] for a bool *)
Definition str_bool (b : bool) : string := if b then "True" else "False".

Section CheckCert.
(** Modelled from the spec: the modules [pem] and [x509] are not among the
    sources.  [pem.dePem], the constructor [x509.X509] and the method
    [check_date] are taken as arbitrary library calls that return or
    raise ("parse the certificate, check its validity window"). *)
Context {der certificate : Type}.
Variable dePem : string -> string -> exn + der.
Variable X509 : der -> exn + certificate.
Variable check_date : certificate -> exn + unit.

(** The message of the second half of [check_cert]. *)
Definition cert_report (host : string) (expired : bool) : string :=
  ("host: " +:+ host +:+ newline) +:+ ("has_expired: " +:+ str_bool expired +:+ newline).

(** The first [try] block.  [None] stands for the [return] in its
    handler. *)
Definition check_cert_parse (cert : string) : io (option certificate) :=
  try_except
    (b ← lift (dePem cert "CERTIFICATE");
     x ← lift (X509 b);
     mret (Some x))
    (fun e => _ ← print_exc e; mret None).

Definition check_cert (host cert : string) : io unit :=
  parsed ← check_cert_parse cert;
  match parsed with
  | None => mret tt
  | Some x =>
      expired ← try_except (_ ← lift (check_date x); mret false)
                           (fun _ => mret true);
      print_msg (cert_report host expired)
  end.

(** What parsing alone yields. *)
Definition parse_cert (cert : string) : exn + certificate :=
  match dePem cert "CERTIFICATE" with
  | inl e => inl e
  | inr b => X509 b
  end.

Definition date_check_fails (x : certificate) : bool :=
  match check_date x with
  | inl _ => true
  | inr _ => false
  end.
End CheckCert.

(** ** The host of a server string *)

(** The character [':'] *)
Definition colon : Ascii.ascii := Ascii.ascii_of_nat 58.

(** [s.rsplit(':', 1)] when [s] has a colon: what is before the last colon
    and what is after it. *)
Fixpoint rsplit_colon (s : string) : option (string * string) :=
  match s with
  | EmptyString => None
  | String c s' =>
      match rsplit_colon s' with
      | Some (before, after) => Some (String c before, after)
      | None => if Ascii.eqb c colon then Some (EmptyString, s') else None
      end
  end.

(** [s.rsplit(':', 2)]: at most two splits, taken from the right. *)
Definition rsplit_colon_2 (s : string) : list string :=
  match rsplit_colon s with
  | None => [s]
  | Some (rest, last) =>
      match rsplit_colon rest with
      | None => [rest; last]
      | Some (first, middle) => [first; middle; last]
      end
  end.

(** [self.host, _, _ = server.rsplit(':', 2)] of [Interface.__init__]:
    unpacking anything but three parts raises [ValueError]. *)
Definition Interface_host (server : string) : exn + string :=
  match rsplit_colon_2 server with
  | [host; _; _] => inr host
  | _ => inl (OtherError "ValueError")
  end.

(** The number of colons of a string. *)
Fixpoint colons (s : string) : nat :=
  match s with
  | EmptyString => 0
  | String c s' => (if Ascii.eqb c colon then 1 else 0) + colons s'
  end.

(** ** Matching a host name against a certificate name *)

(** [s.endswith(suffix)] *)
Fixpoint endswith (s suffix : string) : bool :=
  String.eqb s suffix ||
  match s with
  | EmptyString => false
  | String _ s' => endswith s' suffix
  end.

(** [s.startswith(prefix)] *)
Definition startswith (s prefix : string) : bool := String.prefix prefix s.

(** [s[1:]] *)
Definition from_1 (s : string) : string :=
  match s with
  | EmptyString => EmptyString
  | String _ s' => s'
  end.

Definition _match_hostname (name val : string) : bool :=
  if String.eqb val name then true
  else startswith val "*." && endswith name (from_1 val).

(** ** Callers *)

(** [n] calls of [send_request] in a row, each on the session the one
    before left. *)
Fixpoint send_requests (n : nat) (self : Interface) : Interface :=
  match n with
  | O => self
  | S n => send_requests n (state_of (send_request self))
  end.

(** Whether one of [n] calls of [send_request] in a row finds the queue
    empty and stays suspended. *)
Fixpoint send_requests_suspend (n : nat) (self : Interface) : bool :=
  match n with
  | O => false
  | S n =>
      match send_request self with
      | Awaiting _ _ => true
      | o => send_requests_suspend n (state_of o)
      end
  end.

(** The time stamps of a queue are in order, smallest first. *)
Fixpoint queue_sorted (q : list (Q * request)) : Prop :=
  match q with
  | [] => True
  | e :: q' => Forall (fun e' => (fst e <= fst e')%Q) q' /\ queue_sorted q'
  end.

(** What one pair of the list of [get_responses] says, for a call that
    found the table [before] and left the table [after]: the closing
    [(None, None)]; a notification, a dict without id; or an answer with
    the request that [before] held under the id of the answer and that
    [after] holds no more. *)
Definition pair_explained (before after : gmap key request) (pr : response_pair) : Prop :=
  match pr with
  | (None, None) => True
  | (None, Some (PDict d)) => dict_get d "id" PNone = PNone
  | (Some req, Some (PDict d)) =>
      exists v k, d !! "id" = Some v /\ is_None v = false /\ hash_key v = Some k
                  /\ before !! k = Some req /\ after !! k = None
  | _ => False
  end.

(** The session with [inbox] waiting in its pipe. *)
Definition with_incoming (inbox : list pyval) (self : Interface) : Interface :=
  set_pipe {| incoming := inbox; sent := sent (pipe self);
              idle := idle (pipe self); broken := broken (pipe self) |} self.

Section TestCertificates.
Context {der certificate : Type}.
Variable dePem : string -> string -> exn + der.
Variable X509 : der -> exn + certificate.
Variable check_date : certificate -> exn + unit.
(** The file system as [test_certificates] meets it: [SimpleConfig().path],
    [os.path.join], [os.listdir], and [open(p)] followed by [f.read()].  All
    but the join may raise. *)
Variable config_path : exn + string.
Variable path_join : string -> string -> string.
Variable listdir : string -> exn + list string.
Variable read_text : string -> exn + string.

(** What [check_cert] writes for one file. *)
Definition cert_output (c cert : string) : event :=
  match parse_cert dePem X509 cert with
  | inl e => PrintExc e
  | inr x => PrintMsg (cert_report c (date_check_fails check_date x))
  end.

(** The [for] loop of [test_certificates]: each file is read, outside any
    [try], and checked with its name for host. *)
Fixpoint test_certificates_loop (mydir : string) (certs : list string) : io unit :=
  match certs with
  | [] => mret tt
  | c :: certs =>
      cert ← lift (read_text (path_join mydir c));
      _ ← check_cert dePem X509 check_date c cert;
      test_certificates_loop mydir certs
  end.

Definition test_certificates : io unit :=
  path ← lift config_path;
  certs ← lift (listdir (path_join path "certs"));
  test_certificates_loop (path_join path "certs") certs.
End TestCertificates.

(** ** Sample sessions *)

Module Sample.

Definition request_7 : request :=
  [PStr "blockchain.address.get_balance"; PList [PStr "1BitcoinEaterAddressDontSendf59kuE"]; PInt 7].

(** A second request that reuses the id 7. *)
Definition request_7_again : request :=
  [PStr "blockchain.address.get_history"; PList [PStr "1BitcoinEaterAddressDontSendf59kuE"]; PInt 7].

Definition answer_7_members : gmap string pyval :=
  <["id" := PInt 7]> (<["result" := PInt 1]> ∅).
Definition answer_7 : pyval := PDict answer_7_members.

Definition answer_8_members : gmap string pyval :=
  <["id" := PInt 8]> (<["result" := PInt 0]> ∅).
Definition answer_8 : pyval := PDict answer_8_members.

Definition notification_members : gmap string pyval :=
  <["method" := PStr "blockchain.headers.subscribe"]>
    (<["params" := PList [PInt 440000]]> ∅).
Definition notification : pyval := PDict notification_members.


(** A transport that has [inbox] to deliver and has been silent for
    [quiet] seconds. *)
Definition pipe_with (inbox : list pyval) (quiet : Q) : SocketPipe :=
  {| incoming := inbox; sent := []; idle := quiet; broken := false |}.

Definition fresh (now : Q) : Interface :=
  Interface_init now "electrum.example.org:50002:s" (pipe_with [] 0).

(** Request 7 queued at second 100 and sent at second 115. *)
Definition late_send : list (Q * call) :=
  [(100%Q, QueueRequest request_7); (115%Q, SendRequest)].

(** The session after [late_send], with [inbox] arrived meanwhile. *)
Definition pending_7 (inbox : list pyval) (quiet : Q) : Interface :=
  run (late_send ++ [(116%Q, Network (pipe_with inbox quiet))]) (fresh 99).

(** The [n]-th of a series of requests, ids counting up from 0. *)
Definition numbered (n : nat) : request :=
  [PStr "server.ping"; PList []; PInt (Z.of_nat n)].

(** [n] requests queued one per second, then [n] calls of
    [send_request]. *)
Definition burst (n : nat) : list (Q * call) :=
  map (fun j => (inject_Z (Z.of_nat j), QueueRequest (numbered j))) (seq 0 n)
  ++ map (fun j => (inject_Z (Z.of_nat (n + j)), SendRequest)) (seq 0 n).

(** Request 7 queued at second 100 and sent at second 101. *)
Definition sent_7 : Interface :=
  run [(100%Q, QueueRequest request_7); (101%Q, SendRequest)] (fresh 99).

Definition request_8 : request :=
  [PStr "blockchain.address.get_history"; PList [PStr "1BitcoinEaterAddressDontSendf59kuE"]; PInt 8].

(** The pipe of [sent_7] at second 120: nothing has come or gone since the
    write of second 101, 19 seconds ago. *)
Definition quiet_since_send : SocketPipe :=
  {| incoming := []; sent := sent (pipe sent_7); idle := 19; broken := false |}.

(** Request 7 queued and sent, no answer; request 8 queued at second 119
    and not sent. *)
Definition requeued : list (Q * call) :=
  [(100%Q, QueueRequest request_7); (101%Q, SendRequest);
   (119%Q, QueueRequest request_8); (120%Q, Network quiet_since_send)].

(** A certificate directory with two files, and one whose second file
    cannot be read. *)
Definition sample_config_path : exn + string := inr "/home/user/.electrum".

Definition sample_path_join (a b : string) : string := a +:+ "/" +:+ b.

Definition sample_listdir (d : string) : exn + list string :=
  if bool_decide (d = "/home/user/.electrum/certs") then inr ["good"; "old"]
  else inl OSError.

Definition sample_read_text (p : string) : exn + string :=
  if bool_decide (p = "/home/user/.electrum/certs/good") then inr "good"
  else if bool_decide (p = "/home/user/.electrum/certs/old") then inr "old"
  else inl OSError.

Definition sample_read_text_binary (p : string) : exn + string :=
  if bool_decide (p = "/home/user/.electrum/certs/good") then inr "good"
  else inl (OtherError "UnicodeDecodeError").

(** A session with 101 requests sent and none answered. *)
Definition overloaded : Interface := run (burst 101) (fresh 0).

(** A PEM decoder and certificate parser for two sample blobs: ["good"]
    parses to a certificate in date, ["old"] to one out of date, anything
    else is not a certificate. *)
Definition sample_dePem (cert marker : string) : exn + string :=
  if bool_decide (cert = "good" \/ cert = "old") then inr cert
  else inl (OtherError "SyntaxError").

Definition sample_X509 (b : string) : exn + bool := inr (bool_decide (b = "good")).

Definition sample_check_date (in_date : bool) : exn + unit :=
  if in_date then inr tt else inl (OtherError "CertificateError").

End Sample.

(** * Properties *)

(** ** Comparisons of clock readings *)

Lemma Qgtb_true (a b : Q) : Qgtb a b = true <-> (b < a)%Q.
Proof.
  unfold Qgtb. rewrite negb_true_iff, <- not_true_iff_false, Qle_bool_iff.
  split; intros H; lra.
Qed.

Lemma Qgtb_false (a b : Q) : Qgtb a b = false <-> (a <= b)%Q.
Proof.
  unfold Qgtb. rewrite negb_false_iff, Qle_bool_iff. reflexivity.
Qed.

(** ** The receive loop *)

Lemma get_responses_body_pipe response responses self :
  match get_responses_body response responses self with
  | Continue _ self' | Break _ self' | Throw _ self' => pipe self' = pipe self
  end.
Proof.
  unfold get_responses_body.
  destruct response; simpl; try reflexivity.
  destruct (is_None _); [reflexivity|].
  destruct (hash_key _); [|reflexivity].
  destruct (popped_truthy _); reflexivity.
Qed.

(** One round of the loop, in terms of what the pipe delivers. *)
Lemma get_responses_from_get response p responses self :
  pipe_get (pipe self) = Some (response, p) ->
  get_responses_from responses self =
    match get_responses_body response responses (set_pipe p self) with
    | Continue responses' self' => get_responses_from responses' self'
    | Break responses' self' => Returned responses' self'
    | Throw e self' => Raised e self'
    end.
Proof.
  unfold pipe_get, get_responses_from.
  destruct (incoming (pipe self)) as [|v rest] eqn:Hin; [discriminate|].
  intros [= <- <-]. simpl.
  pose proof (get_responses_body_pipe v responses
    (set_pipe {| incoming := rest; sent := sent (pipe self);
                 idle := idle (pipe self); broken := broken (pipe self) |} self)) as Hp.
  destruct (get_responses_body _ _ _) as [r s|r s|e s]; try reflexivity.
  rewrite Hp. reflexivity.
Qed.

Lemma get_responses_from_empty responses self :
  pipe_get (pipe self) = None ->
  get_responses_from responses self = Awaiting responses self.
Proof.
  unfold pipe_get, get_responses_from.
  destruct (incoming (pipe self)); [reflexivity|discriminate].
Qed.

Lemma set_unanswered_requests_same self :
  set_unanswered_requests (unanswered_requests self) self = self.
Proof. destruct self; reflexivity. Qed.

(** [d.pop(k, None)] on a dict without [k] leaves the dict as it is. *)
Lemma pop_absent k self :
  unanswered_requests self !! k = None ->
  set_unanswered_requests (delete k (unanswered_requests self)) self = self.
Proof.
  intros Hk. rewrite delete_id by exact Hk. apply set_unanswered_requests_same.
Qed.

(** A round on an answer whose id is in the table and whose request is a
    true value. *)
Lemma get_responses_from_paired self responses p d v k req :
  pipe_get (pipe self) = Some (PDict d, p) ->
  d !! "id" = Some v ->
  is_None v = false ->
  hash_key v = Some k ->
  unanswered_requests self !! k = Some req ->
  tuple_truthy req = true ->
  get_responses_from responses self =
    get_responses_from (responses ++ [(Some req, Some (PDict d))])
      (set_unanswered_requests (delete k (unanswered_requests self)) (set_pipe p self)).
Proof.
  intros Hget Hid Hnone Hkey Hreq Htrue.
  rewrite (get_responses_from_get _ _ _ _ Hget).
  unfold get_responses_body, dict_get. rewrite Hid, Hnone, Hkey.
  simpl. rewrite Hreq. simpl. rewrite Htrue. reflexivity.
Qed.

(** The list and the table with which a call ends, given the list and the
    table from which the loop goes on: the list is the earlier one and what
    later rounds added, the table the earlier one less what later rounds
    took out. *)
Lemma get_responses_from_outcome responses self :
  match get_responses_from responses self with
  | Returned out s | Awaiting out s =>
      (exists more, out = responses ++ more)
      /\ unanswered_requests s ⊆ unanswered_requests self
  | Raised _ s => unanswered_requests s ⊆ unanswered_requests self
  end.
Proof.
  unfold get_responses_from.
  generalize (incoming (pipe self)) as inbox. intros inbox.
  revert responses self.
  induction inbox as [|v inbox IH]; intros responses self; simpl.
  - split; [|reflexivity]. exists []. symmetry. apply app_nil_r.
  - match goal with
    | |- context [get_responses_body v responses ?s] =>
        assert (Hb : match get_responses_body v responses s with
                     | Continue out s' | Break out s' =>
                         (exists one, out = responses ++ one)
                         /\ unanswered_requests s' ⊆ unanswered_requests self
                     | Throw _ s' => unanswered_requests s' ⊆ unanswered_requests self
                     end)
    end.
    { unfold get_responses_body. destruct v; simpl; eauto.
      destruct (is_None _); [eauto|].
      destruct (hash_key _); [|reflexivity].
      destruct (popped_truthy _); simpl; (split; [eauto | apply delete_subseteq]). }
    destruct (get_responses_body _ _ _) as [rs s|rs s|e s]; [|exact Hb|exact Hb].
    destruct Hb as [[one ->] Hsub]. specialize (IH (responses ++ one) s).
    destruct (get_responses_loop _ _ _) as [out s'|out s'|e s'].
    + destruct IH as [[more ->] Hs]. split; [|etrans; eauto].
      exists (one ++ more). symmetry. apply app_assoc.
    + destruct IH as [[more ->] Hs]. split; [|etrans; eauto].
      exists (one ++ more). symmetry. apply app_assoc.
    + etrans; eauto.
Qed.

(** C1.  When the pipe delivers a message whose ['id'] member is [v], a
    value that is not [None] and hashes to [k], and the table of unanswered
    requests maps [k] to the request [(m, a, i)], then [get_responses]
    appends the one pair (request, message), takes [k] (and nothing else)
    out of the table, and goes on reading from the head of its loop.  So,
    with nothing more to read, the call is suspended holding exactly the
    earlier pairs and this one, in the session without [k]; and however the
    call ends, its list starts with the earlier pairs and this one, and its
    table holds no more than the table without [k]. *)
Theorem get_responses_answer self responses p d v k m a i :
  pipe_get (pipe self) = Some (PDict d, p) ->
  d !! "id" = Some v ->
  is_None v = false ->
  hash_key v = Some k ->
  unanswered_requests self !! k = Some [m; a; i] ->
  get_responses_from responses self =
    get_responses_from (responses ++ [(Some [m; a; i], Some (PDict d))])
      (set_unanswered_requests (delete k (unanswered_requests self)) (set_pipe p self))
  /\ delete k (unanswered_requests self) !! k = None
  /\ (forall k', k' <> k ->
        delete k (unanswered_requests self) !! k' = unanswered_requests self !! k')
  /\ (incoming p = [] ->
      get_responses_from responses self =
        Awaiting (responses ++ [(Some [m; a; i], Some (PDict d))])
          (set_unanswered_requests (delete k (unanswered_requests self)) (set_pipe p self)))
  /\ match get_responses_from responses self with
     | Returned out s | Awaiting out s =>
         (exists more, out = responses ++ (Some [m; a; i], Some (PDict d)) :: more)
         /\ unanswered_requests s ⊆ delete k (unanswered_requests self)
     | Raised _ s => unanswered_requests s ⊆ delete k (unanswered_requests self)
     end.
Proof.
  intros Hget Hid Hnone Hkey Hreq.
  assert (Heq : get_responses_from responses self =
    get_responses_from (responses ++ [(Some [m; a; i], Some (PDict d))])
      (set_unanswered_requests (delete k (unanswered_requests self)) (set_pipe p self)))
    by (apply (get_responses_from_paired _ _ _ _ v); auto).
  split; [exact Heq|]. split; [|split; [|split]].
  - apply lookup_delete_eq.
  - intros k' Hne. apply lookup_delete_ne. congruence.
  - intros Hp. rewrite Heq. apply get_responses_from_empty.
    unfold pipe_get. simpl. rewrite Hp. reflexivity.
  - rewrite Heq. clear Heq.
    pose proof (get_responses_from_outcome
      (responses ++ [(Some [m; a; i], Some (PDict d))])
      (set_unanswered_requests (delete k (unanswered_requests self)) (set_pipe p self)))
      as Ho.
    destruct (get_responses_from _ _) as [out s|out s|e s]; simpl in Ho; [| |exact Ho].
    + destruct Ho as [[more ->] Hs]. split; [|exact Hs].
      exists more. rewrite <- app_assoc. reflexivity.
    + destruct Ho as [[more ->] Hs]. split; [|exact Hs].
      exists more. rewrite <- app_assoc. reflexivity.
Qed.

(** When the pipe delivers a message whose ['id'] member is a value
    that is not [None] and whose key [k] is not in the table of unanswered
    requests, [get_responses] returns at once with [(None, None)] appended;
    the session is as before but for the one message taken off the pipe, so
    the table is untouched and every later message is still in the pipe. *)
Theorem get_responses_unknown_id self responses p d v k :
  pipe_get (pipe self) = Some (PDict d, p) ->
  d !! "id" = Some v ->
  is_None v = false ->
  hash_key v = Some k ->
  unanswered_requests self !! k = None ->
  get_responses_from responses self =
    Returned (responses ++ [(None, None)]) (set_pipe p self)
  /\ unanswered_requests (set_pipe p self) = unanswered_requests self
  /\ incoming (pipe (set_pipe p self)) = tail (incoming (pipe self)).
Proof.
  intros Hget Hid Hnone Hkey Hreq. split; [|split].
  - rewrite (get_responses_from_get _ _ _ _ Hget).
    unfold get_responses_body, dict_get. rewrite Hid, Hnone, Hkey.
    simpl. rewrite Hreq. simpl.
    change (unanswered_requests self) with (unanswered_requests (set_pipe p self)).
    rewrite pop_absent; [reflexivity | exact Hreq].
  - reflexivity.
  - unfold pipe_get in Hget. simpl.
    destruct (incoming (pipe self)); [discriminate|].
    injection Hget as _ <-. reflexivity.
Qed.

(** C3.  When the pipe delivers a value that is not a dict,
    [get_responses] returns at once with [(None, None)] appended.  If the
    value is [None] the session has [closed_remotely] set; otherwise the
    session is as before but for the value taken off the pipe. *)
Theorem get_responses_not_a_message self responses p v :
  pipe_get (pipe self) = Some (v, p) ->
  (forall d, v <> PDict d) ->
  get_responses_from responses self =
    Returned (responses ++ [(None, None)])
      (if is_None v then set_closed_remotely true (set_pipe p self) else set_pipe p self)
  /\ (v = PNone ->
      closed_remotely (state_of (get_responses_from responses self)) = true)
  /\ (v <> PNone ->
      closed_remotely (state_of (get_responses_from responses self)) = closed_remotely self).
Proof.
  intros Hget Hv.
  assert (Heq : get_responses_from responses self =
    Returned (responses ++ [(None, None)])
      (if is_None v then set_closed_remotely true (set_pipe p self) else set_pipe p self)).
  { rewrite (get_responses_from_get _ _ _ _ Hget).
    destruct v; simpl; try reflexivity. destruct (Hv d). reflexivity. }
  split; [exact Heq|]. rewrite Heq. split.
  - intros ->. reflexivity.
  - intros Hne. destruct v; simpl; try reflexivity. destruct Hne. reflexivity.
Qed.

(** C4.  When the pipe delivers a dict without an ['id'] member,
    [get_responses] appends [(None, message)] and goes on reading from the
    head of its loop, in a session that is as before but for the message
    taken off the pipe: the table of unanswered requests is unchanged.  So,
    with nothing more to read, the call is suspended holding exactly the
    earlier pairs and this one, in that session; and however the call ends,
    its list starts with the earlier pairs and this one. *)
Theorem get_responses_notification self responses p d :
  pipe_get (pipe self) = Some (PDict d, p) ->
  d !! "id" = None ->
  get_responses_from responses self =
    get_responses_from (responses ++ [(None, Some (PDict d))]) (set_pipe p self)
  /\ unanswered_requests (set_pipe p self) = unanswered_requests self
  /\ (incoming p = [] ->
      get_responses_from responses self =
        Awaiting (responses ++ [(None, Some (PDict d))]) (set_pipe p self))
  /\ match get_responses_from responses self with
     | Returned out _ | Awaiting out _ =>
         exists more, out = responses ++ (None, Some (PDict d)) :: more
     | Raised _ _ => True
     end.
Proof.
  intros Hget Hid.
  assert (Heq : get_responses_from responses self =
    get_responses_from (responses ++ [(None, Some (PDict d))]) (set_pipe p self)).
  { rewrite (get_responses_from_get _ _ _ _ Hget).
    unfold get_responses_body, dict_get. rewrite Hid. reflexivity. }
  split; [exact Heq|]. split; [reflexivity|]. split.
  - intros Hp. rewrite Heq. apply get_responses_from_empty.
    unfold pipe_get. simpl. rewrite Hp. reflexivity.
  - rewrite Heq. clear Heq.
    pose proof (get_responses_from_outcome
      (responses ++ [(None, Some (PDict d))]) (set_pipe p self)) as Ho.
    destruct (get_responses_from _ _) as [out s|out s|e s]; [| |exact I].
    + destruct Ho as [[more ->] _]. exists more. rewrite <- app_assoc. reflexivity.
    + destruct Ho as [[more ->] _]. exists more. rewrite <- app_assoc. reflexivity.
Qed.

(** ** The send allowance *)

(** C5 (as the code has it).  [num_requests] is the smaller of
    [100 - len(unanswered_requests)] and the depth of the queue; it is
    non-negative exactly when at most 100 requests are unanswered. *)
Theorem num_requests_allowance self :
  num_requests self =
    Z.min (100 - Z.of_nat (size (unanswered_requests self)))
          (Z.of_nat (length (unsent_requests self)))
  /\ (0 <= num_requests self <-> (size (unanswered_requests self) <= 100)%nat).
Proof.
  split; [reflexivity|]. unfold num_requests. lia.
Qed.

(** ** Keepalive *)

Lemma ping_required_true now self :
  fst (ping_required now self) = true <-> (60 < now - last_ping self)%Q.
Proof.
  unfold ping_required. destruct (Qgtb _ _) eqn:H; simpl.
  - apply Qgtb_true in H. tauto.
  - apply Qgtb_false in H. split; [discriminate|]. intros. lra.
Qed.

Lemma ping_required_last_ping now self :
  last_ping (snd (ping_required now self)) =
    if fst (ping_required now self) then now else last_ping self.
Proof. unfold ping_required. destruct (Qgtb _ _); reflexivity. Qed.

(** Every call that answers true comes more than 60 seconds after the
    [last_ping] the series started from. *)
Lemma ping_results_after_last_ping ts : forall self j tj,
  ts !! j = Some tj ->
  ping_results ts self !! j = Some true ->
  (60 < tj - last_ping self)%Q.
Proof.
  induction ts as [|t ts IH]; intros self j tj Hj Hr; [discriminate|].
  destruct j as [|j]; simpl in Hj, Hr.
  - injection Hj as ->. injection Hr as Hr. apply ping_required_true, Hr.
  - specialize (IH _ _ _ Hj Hr). rewrite ping_required_last_ping in IH.
    destruct (fst (ping_required t self)) eqn:Ht; [|exact IH].
    apply ping_required_true in Ht. lra.
Qed.

(** Any two calls of a series that answer true are more than 60 seconds
    apart. *)
Lemma ping_results_spacing ts : forall self i j ti tj,
  (i < j)%nat ->
  ts !! i = Some ti -> ts !! j = Some tj ->
  ping_results ts self !! i = Some true ->
  ping_results ts self !! j = Some true ->
  (60 < tj - ti)%Q.
Proof.
  induction ts as [|t ts IH]; intros self i j ti tj Hij Hi Hj Hri Hrj; [discriminate|].
  destruct j as [|j]; [lia|]. destruct i as [|i]; simpl in *.
  - injection Hi as ->. injection Hri as Hri.
    pose proof (ping_results_after_last_ping _ _ _ _ Hj Hrj) as H.
    rewrite ping_required_last_ping, Hri in H. exact H.
  - eapply (IH _ i j); eauto. lia.
Qed.

(** C7.  A call of [ping_required] at [t1] that answers true leaves
    [last_ping] at [t1]; a call at any [t2] not more than 60 seconds after
    [t1] then answers false and changes nothing; a call at any [t3] more
    than 60 seconds after [t1] answers true again.  In any series of calls,
    two that answer true are more than 60 seconds apart. *)
Theorem ping_required_window self t1 :
  fst (ping_required t1 self) = true ->
  last_ping (snd (ping_required t1 self)) = t1
  /\ (forall t2, (t2 - t1 <= 60)%Q ->
        ping_required t2 (snd (ping_required t1 self)) = (false, snd (ping_required t1 self)))
  /\ (forall t3, (60 < t3 - t1)%Q ->
        fst (ping_required t3 (snd (ping_required t1 self))) = true)
  /\ (forall ts s i j ti tj, (i < j)%nat ->
        ts !! i = Some ti -> ts !! j = Some tj ->
        ping_results ts s !! i = Some true ->
        ping_results ts s !! j = Some true ->
        (60 < tj - ti)%Q).
Proof.
  intros H1.
  assert (Hlp : last_ping (snd (ping_required t1 self)) = t1).
  { rewrite ping_required_last_ping, H1. reflexivity. }
  split; [exact Hlp|]. split; [|split].
  - intros t2 H2. unfold ping_required at 1. rewrite Hlp.
    apply Qgtb_false in H2. rewrite H2. reflexivity.
  - intros t3 H3. apply ping_required_true. rewrite Hlp. exact H3.
  - intros ts s. apply ping_results_spacing.
Qed.

(** C10.  On a session just built, whatever the instant [t0] of its
    construction, a call of [ping_required] at a clock reading above 60
    (seconds since the epoch) answers true and stamps [last_ping]. *)
Theorem first_ping_immediate t0 srv p now :
  (60 < now)%Q ->
  ping_required now (Interface_init t0 srv p) =
    (true, set_last_ping now (Interface_init t0 srv p)).
Proof.
  intros H. unfold ping_required.
  change (last_ping (Interface_init t0 srv p)) with 0%Q.
  assert (Hg : Qgtb (now - 0) 60 = true) by (apply Qgtb_true; lra).
  rewrite Hg. reflexivity.
Qed.

(** ** The invariant along a trace *)

Lemma well_formed_init now srv p : well_formed (Interface_init now srv p).
Proof.
  repeat split; simpl.
  - intros k req H. rewrite lookup_empty in H. discriminate.
  - intros H. destruct H. reflexivity.
  - intros H. destruct H. reflexivity.
Qed.

Lemma well_formed_set_pipe p self : well_formed self -> well_formed (set_pipe p self).
Proof. intros H. exact H. Qed.

Lemma well_formed_queue_request now args self :
  well_formed self -> well_formed (queue_request now args self).
Proof.
  intros (H1 & _ & _). repeat split; simpl; eauto.
Qed.

(** Taking entries out of the table keeps the invariant. *)
Lemma well_formed_delete k self :
  well_formed self ->
  well_formed (set_unanswered_requests (delete k (unanswered_requests self)) self).
Proof.
  intros (H1 & H2 & H3). repeat split; simpl.
  - intros k' req H. apply lookup_delete_Some in H as [_ H]. eauto.
  - intros Hne. apply H2. intros Hempty. apply Hne. rewrite Hempty. apply delete_empty.
  - exact H3.
Qed.

Lemma well_formed_send_request self :
  well_formed self -> well_formed (state_of (send_request self)).
Proof.
  intros (H1 & H2 & H3). unfold send_request.
  destruct (unsent_requests self) as [|[prio req] rest] eqn:Hq; [repeat split; auto|].
  assert (Ht : is_Some (request_time self)) by (apply H3; congruence).
  destruct (make_dict req) as [e|d] eqn:Hd; [repeat split; simpl; auto|].
  simpl. destruct (pipe_send_all _ _); [repeat split; simpl; auto|].
  destruct (req !! 2%nat) as [i|] eqn:Hi; [|repeat split; simpl; auto].
  destruct (hash_key i) as [k|] eqn:Hk; [|repeat split; simpl; auto].
  repeat split; simpl; auto.
  intros k' req' Hl.
  destruct (decide (k = k')) as [<-|Hne].
  - rewrite lookup_insert_eq in Hl. injection Hl as <-.
    unfold make_dict in Hd.
    destruct req as [|m [|a [|i' [|? ?]]]]; try discriminate.
    simpl in Hi. injection Hi as ->. eauto.
  - rewrite lookup_insert_ne in Hl by exact Hne. eauto.
Qed.

Lemma well_formed_ping_required now self :
  well_formed self -> well_formed (snd (ping_required now self)).
Proof.
  intros H. unfold ping_required. destruct (Qgtb _ _); exact H.
Qed.

Lemma well_formed_get_responses_body response responses self :
  well_formed self ->
  match get_responses_body response responses self with
  | Continue _ self' | Break _ self' | Throw _ self' => well_formed self'
  end.
Proof.
  intros H. unfold get_responses_body.
  destruct response; simpl; try exact H.
  destruct (is_None _); [exact H|].
  destruct (hash_key _) as [k|]; [|exact H].
  destruct (popped_truthy _); apply well_formed_delete, H.
Qed.

Lemma well_formed_get_responses_loop inbox : forall responses self,
  well_formed self -> well_formed (state_of (get_responses_loop inbox responses self)).
Proof.
  induction inbox as [|v inbox IH]; intros responses self H; [exact H|].
  simpl.
  match goal with
  | |- context [get_responses_body v responses ?s] =>
      pose proof (well_formed_get_responses_body v responses s H) as Hb;
      destruct (get_responses_body v responses s)
  end; simpl; auto.
Qed.

Lemma well_formed_run_call now c self :
  well_formed self -> well_formed (run_call now c self).
Proof.
  intros H. destruct c; simpl.
  - apply well_formed_queue_request, H.
  - apply well_formed_send_request, H.
  - apply well_formed_ping_required, H.
  - apply well_formed_get_responses_loop, H.
  - exact H.
Qed.

Lemma well_formed_run calls : forall self,
  well_formed self -> well_formed (run calls self).
Proof.
  induction calls as [|[now c] calls IH]; intros self H; [exact H|].
  simpl. apply IH, well_formed_run_call, H.
Qed.

(** ** The stamp that [has_timed_out] reads *)

Lemma request_time_send_request self :
  request_time (state_of (send_request self)) = request_time self.
Proof.
  unfold send_request.
  destruct (unsent_requests self) as [|[prio req] rest]; [reflexivity|].
  destruct (make_dict req); simpl; [reflexivity|].
  destruct (pipe_send_all _ _); [reflexivity|].
  destruct (req !! 2%nat) as [i|]; [|reflexivity].
  destruct (hash_key i); reflexivity.
Qed.

Lemma request_time_get_responses_loop inbox : forall responses self,
  request_time (state_of (get_responses_loop inbox responses self)) = request_time self.
Proof.
  induction inbox as [|v inbox IH]; intros responses self; [reflexivity|].
  simpl.
  match goal with
  | |- context [get_responses_body v responses ?s] =>
      assert (Hb : match get_responses_body v responses s with
                   | Continue _ s' | Break _ s' | Throw _ s' =>
                       request_time s' = request_time self
                   end)
  end.
  { unfold get_responses_body. destruct v; simpl; try reflexivity.
    destruct (is_None _); [reflexivity|].
    destruct (hash_key _); [|reflexivity].
    destruct (popped_truthy _); reflexivity. }
  destruct (get_responses_body _ _ _); simpl; auto.
  rewrite IH. exact Hb.
Qed.

(** Along a trace, [self.request_time] is the instant of the latest
    [queue_request]. *)
Lemma request_time_run calls : forall self,
  request_time (run calls self) = last_queue_request_time calls (request_time self).
Proof.
  induction calls as [|[now c] calls IH]; intros self; [reflexivity|].
  simpl. rewrite IH. destruct c; simpl.
  - reflexivity.
  - rewrite request_time_send_request. reflexivity.
  - unfold ping_required. destruct (Qgtb _ _); reflexivity.
  - unfold get_responses, get_responses_from.
    rewrite request_time_get_responses_loop. reflexivity.
  - reflexivity.
Qed.

(** C6 (as the code has it).  On the session reached by any trace of calls
    from its construction, [has_timed_out] raises nothing; it answers true
    exactly when there are unanswered requests, more than 10 seconds have
    passed since the latest [queue_request], and the transport reports more
    than 10 seconds of idle time; it answers false otherwise. *)
Theorem has_timed_out_iff t0 srv p0 calls now :
  let self := run calls (Interface_init t0 srv p0) in
  let timed_out :=
    unanswered_requests self <> ∅
    /\ (exists t, last_queue_request_time calls None = Some t /\ (10 < now - t)%Q)
    /\ (10 < pipe_idle_time (pipe self))%Q in
  (has_timed_out now self = inr true <-> timed_out)
  /\ (has_timed_out now self = inr false <-> ~ timed_out).
Proof.
  intros self timed_out. subst timed_out.
  pose proof (well_formed_run calls _ (well_formed_init t0 srv p0)) as (_ & Hwf & _).
  fold self in Hwf.
  pose proof (request_time_run calls (Interface_init t0 srv p0)) as Hrt.
  fold self in Hrt. simpl in Hrt. rewrite <- Hrt.
  unfold has_timed_out. case_bool_decide as Hempty.
  - split; split; try discriminate; try tauto.
  - destruct (Hwf Hempty) as [t Ht]. rewrite Ht.
    destruct (Qgtb (now - t) 10) eqn:H1;
      [destruct (Qgtb (pipe_idle_time (pipe self)) 10) eqn:H2|].
    + apply Qgtb_true in H1, H2. split; split; try discriminate; eauto.
      intros H. destruct H; eauto.
    + apply Qgtb_false in H2. split; split; try discriminate; auto.
      * intros (_ & _ & H). lra.
      * intros _ (_ & _ & H). lra.
    + apply Qgtb_false in H1. split; split; try discriminate; auto.
      * intros (_ & (t' & [= <-] & H) & _). lra.
      * intros _ (_ & (t' & [= <-] & H) & _). lra.
Qed.

(** ** Recording a sent request *)

(** C8 (as the code has it).  When the request at the head of the queue is
    a triple whose id hashes to [k] and the transport takes the write,
    [send_request] returns [True] and files the request under [k] by plain
    assignment: whatever the table held under [k] before is replaced, and
    the table, being a dict, lists each id once. *)
Theorem send_request_records self prio m a i rest k :
  unsent_requests self = (prio, [m; a; i]) :: rest ->
  broken (pipe self) = false ->
  hash_key i = Some k ->
  returned_value (send_request self) = Some true
  /\ unanswered_requests (state_of (send_request self)) =
       <[k := [m; a; i]]> (unanswered_requests self)
  /\ unanswered_requests (state_of (send_request self)) !! k = Some [m; a; i]
  /\ NoDup (map_to_list (unanswered_requests (state_of (send_request self)))).*1.
Proof.
  intros Hq Hb Hk.
  assert (Hs : send_request self =
    Returned true
      (set_unanswered_requests (<[k := [m; a; i]]> (unanswered_requests self))
         (set_pipe {| incoming := incoming (pipe self);
                      sent := sent (pipe self) ++
                        [PDict (<["method" := m]> (<["params" := a]> (<["id" := i]> ∅)))];
                      idle := 0; broken := broken (pipe self) |}
            (set_unsent_requests rest self)))).
  { unfold send_request. rewrite Hq. simpl. unfold pipe_send_all. simpl.
    rewrite Hb, Hk. reflexivity. }
  rewrite Hs. simpl. repeat split.
  - apply lookup_insert_eq.
  - apply NoDup_fst_map_to_list.
Qed.

(** ** The certificate diagnostic *)


(** * The properties at work on sample sessions *)

Import Sample.

(** The answer to request 7 is paired with it and 7 leaves the table;
    with nothing more in the pipe the call is suspended holding that one
    pair. *)
Lemma get_responses_answer_witness :
  pipe_get (pipe (pending_7 [answer_7] 0)) = Some (answer_7, pipe_with [] 0)
  /\ unanswered_requests (pending_7 [answer_7] 0) !! KInt 7 = Some request_7
  /\ get_responses_from [] (pending_7 [answer_7] 0) =
       get_responses_from [(Some request_7, Some answer_7)]
         (set_unanswered_requests
            (delete (KInt 7) (unanswered_requests (pending_7 [answer_7] 0)))
            (set_pipe (pipe_with [] 0) (pending_7 [answer_7] 0)))
  /\ get_responses_from [] (pending_7 [answer_7] 0) =
       Awaiting [(Some request_7, Some answer_7)]
         (set_unanswered_requests
            (delete (KInt 7) (unanswered_requests (pending_7 [answer_7] 0)))
            (set_pipe (pipe_with [] 0) (pending_7 [answer_7] 0))).
Proof.
  assert (Hget : pipe_get (pipe (pending_7 [answer_7] 0))
                 = Some (PDict answer_7_members, pipe_with [] 0)) by reflexivity.
  assert (Hreq : unanswered_requests (pending_7 [answer_7] 0) !! KInt 7
                 = Some [PStr "blockchain.address.get_balance";
                         PList [PStr "1BitcoinEaterAddressDontSendf59kuE"];
                         PInt 7]) by reflexivity.
  pose proof (get_responses_answer (pending_7 [answer_7] 0) [] (pipe_with [] 0)
                answer_7_members (PInt 7) (KInt 7) _ _ _
                Hget eq_refl eq_refl eq_refl Hreq) as (H1 & _ & _ & H4 & _).
  split; [exact Hget|]. split; [exact Hreq|]. split; [exact H1|].
  exact (H4 eq_refl).
Defined.

(** An answer to an id that was never sent ends the call; the answer that
    came after it stays in the pipe. *)
Lemma get_responses_unknown_id_witness :
  pipe_get (pipe (pending_7 [answer_8; answer_7] 0)) = Some (answer_8, pipe_with [answer_7] 0)
  /\ unanswered_requests (pending_7 [answer_8; answer_7] 0) !! KInt 8 = None
  /\ get_responses_from [] (pending_7 [answer_8; answer_7] 0) =
       Returned [(None, None)]
         (set_pipe (pipe_with [answer_7] 0) (pending_7 [answer_8; answer_7] 0)).
Proof.
  assert (Hget : pipe_get (pipe (pending_7 [answer_8; answer_7] 0))
                 = Some (PDict answer_8_members, pipe_with [answer_7] 0)) by reflexivity.
  assert (Hreq : unanswered_requests (pending_7 [answer_8; answer_7] 0) !! KInt 8 = None)
    by reflexivity.
  split; [exact Hget|]. split; [exact Hreq|].
  exact (proj1 (get_responses_unknown_id (pending_7 [answer_8; answer_7] 0) []
                  (pipe_with [answer_7] 0) answer_8_members (PInt 8) (KInt 8)
                  Hget eq_refl eq_refl eq_refl Hreq)).
Defined.

(** [None] from the pipe ends the call and marks the session closed. *)
Lemma get_responses_not_a_message_witness :
  pipe_get (pipe (pending_7 [PNone; answer_7] 0)) = Some (PNone, pipe_with [answer_7] 0)
  /\ get_responses_from [] (pending_7 [PNone; answer_7] 0) =
       Returned [(None, None)]
         (set_closed_remotely true
            (set_pipe (pipe_with [answer_7] 0) (pending_7 [PNone; answer_7] 0)))
  /\ closed_remotely (state_of (get_responses_from [] (pending_7 [PNone; answer_7] 0))) = true.
Proof.
  assert (Hget : pipe_get (pipe (pending_7 [PNone; answer_7] 0))
                 = Some (PNone, pipe_with [answer_7] 0)) by reflexivity.
  assert (Hnd : forall d, PNone <> PDict d) by discriminate.
  split; [exact Hget|].
  pose proof (get_responses_not_a_message (pending_7 [PNone; answer_7] 0) []
                (pipe_with [answer_7] 0) PNone Hget Hnd) as (H1 & H2 & _).
  split; [exact H1 | exact (H2 eq_refl)].
Defined.

(** A notification is passed on and the table keeps request 7; with
    nothing more in the pipe the call is suspended holding that one pair. *)
Lemma get_responses_notification_witness :
  pipe_get (pipe (pending_7 [notification] 0)) = Some (notification, pipe_with [] 0)
  /\ notification_members !! "id" = None
  /\ get_responses_from [] (pending_7 [notification] 0) =
       get_responses_from [(None, Some notification)]
         (set_pipe (pipe_with [] 0) (pending_7 [notification] 0))
  /\ unanswered_requests (set_pipe (pipe_with [] 0) (pending_7 [notification] 0)) =
       unanswered_requests (pending_7 [notification] 0)
  /\ get_responses_from [] (pending_7 [notification] 0) =
       Awaiting [(None, Some notification)]
         (set_pipe (pipe_with [] 0) (pending_7 [notification] 0)).
Proof.
  assert (Hget : pipe_get (pipe (pending_7 [notification] 0))
                 = Some (PDict notification_members, pipe_with [] 0)) by reflexivity.
  assert (Hid : notification_members !! "id" = None) by reflexivity.
  pose proof (get_responses_notification (pending_7 [notification] 0) []
                (pipe_with [] 0) notification_members Hget Hid) as (H1 & H2 & H3 & _).
  split; [exact Hget|]. split; [exact Hid|]. split; [exact H1|]. split; [exact H2|].
  exact (H3 eq_refl).
Defined.

(** After a ping at second 100 none is due at second 160, one is due at
    second 161. *)
Lemma ping_required_window_witness :
  fst (ping_required 100 (fresh 99)) = true
  /\ last_ping (snd (ping_required 100 (fresh 99))) = 100%Q
  /\ ping_required 160 (snd (ping_required 100 (fresh 99)))
       = (false, snd (ping_required 100 (fresh 99)))
  /\ fst (ping_required 161 (snd (ping_required 100 (fresh 99)))) = true.
Proof.
  assert (H : fst (ping_required 100 (fresh 99)) = true) by reflexivity.
  pose proof (ping_required_window (fresh 99) 100 H) as (H1 & H2 & H3 & _).
  split; [exact H|]. split; [exact H1|]. split.
  - apply H2. unfold Qle. simpl. lia.
  - apply H3. unfold Qlt. simpl. lia.
Defined.

(** The first ping of a session built this very second. *)
Lemma first_ping_immediate_witness :
  (60 < 1700000000)%Q
  /\ ping_required 1700000000 (fresh 1700000000) =
       (true, set_last_ping 1700000000 (fresh 1700000000)).
Proof.
  assert (H : (60 < 1700000000)%Q) by reflexivity.
  split; [exact H|].
  exact (first_ping_immediate 1700000000 _ _ 1700000000 H).
Defined.

(** Request 7, queued on a fresh session, is sent and filed under 7. *)
Lemma send_request_records_witness :
  unsent_requests (queue_request 100 request_7 (fresh 99)) = [(100%Q, request_7)]
  /\ returned_value (send_request (queue_request 100 request_7 (fresh 99))) = Some true
  /\ unanswered_requests (state_of (send_request (queue_request 100 request_7 (fresh 99))))
       !! KInt 7 = Some request_7.
Proof.
  assert (Hq : unsent_requests (queue_request 100 request_7 (fresh 99))
               = [(100%Q, [PStr "blockchain.address.get_balance";
                           PList [PStr "1BitcoinEaterAddressDontSendf59kuE"];
                           PInt 7])]) by reflexivity.
  pose proof (send_request_records (queue_request 100 request_7 (fresh 99))
                _ _ _ (PInt 7) [] (KInt 7) Hq eq_refl eq_refl) as (H1 & _ & H3 & _).
  split; [exact Hq|]. split; [exact H1 | exact H3].
Defined.

(** In a session reached by a trace, an answer whose id is in the table is
    always paired: [send_request] files nothing but triples, and a triple is
    a true value. *)
Lemma get_responses_answer_on_trace t0 srv p0 calls responses p d v k req :
  let self := run calls (Interface_init t0 srv p0) in
  pipe_get (pipe self) = Some (PDict d, p) ->
  d !! "id" = Some v ->
  is_None v = false ->
  hash_key v = Some k ->
  unanswered_requests self !! k = Some req ->
  get_responses_from responses self =
    get_responses_from (responses ++ [(Some req, Some (PDict d))])
      (set_unanswered_requests (delete k (unanswered_requests self)) (set_pipe p self)).
Proof.
  intros self Hget Hid Hnone Hkey Hreq.
  pose proof (well_formed_run calls _ (well_formed_init t0 srv p0)) as (Hwf & _ & _).
  destruct (Hwf _ _ Hreq) as (m & a & i & -> & _).
  apply (get_responses_from_paired _ _ _ _ v); auto.
Qed.

(** What a finished or suspended call has accumulated extends what it
    started from. *)
Lemma get_responses_loop_extends inbox : forall responses self,
  match get_responses_loop inbox responses self with
  | Returned rs _ | Awaiting rs _ => exists more, rs = responses ++ more
  | Raised _ _ => True
  end.
Proof.
  induction inbox as [|v inbox IH]; intros responses self; simpl.
  - exists []. symmetry. apply app_nil_r.
  - match goal with
    | |- context [get_responses_body v responses ?s] =>
        assert (Hb : match get_responses_body v responses s with
                     | Continue rs _ | Break rs _ => exists one, rs = responses ++ one
                     | Throw _ _ => True
                     end)
    end.
    { unfold get_responses_body. destruct v; simpl; eauto.
      destruct (is_None _); [eauto|].
      destruct (hash_key _); [|exact I].
      destruct (popped_truthy _); eauto. }
    destruct (get_responses_body _ _ _) as [rs s|rs s|e s]; [|exact Hb|exact I].
    destruct Hb as [one ->]. specialize (IH (responses ++ one) s).
    destruct (get_responses_loop _ _ _) as [rs' ?|rs' ?|]; [| |exact I].
    + destruct IH as [more ->]. exists (one ++ more). symmetry. apply app_assoc.
    + destruct IH as [more ->]. exists (one ++ more). symmetry. apply app_assoc.
Qed.


(** The case of the spec's list of properties: request 7 answered, then
    the connection closed. *)
Lemma get_responses_answer_then_closed :
  returned_value (get_responses (pending_7 [answer_7; PNone] 0)) =
    Some [(Some request_7, Some answer_7); (None, None)]
  /\ unanswered_requests (state_of (get_responses (pending_7 [answer_7; PNone] 0)))
       !! KInt 7 = None
  /\ closed_remotely (state_of (get_responses (pending_7 [answer_7; PNone] 0))) = true.
Proof. repeat split. Qed.

(** A dict whose ['id'] member is [None] is taken for a notification as
    well: [get] returns [None] for it as for a missing member. *)
Lemma get_responses_null_id self responses p d :
  pipe_get (pipe self) = Some (PDict d, p) ->
  d !! "id" = Some PNone ->
  get_responses_from responses self =
    get_responses_from (responses ++ [(None, Some (PDict d))]) (set_pipe p self).
Proof.
  intros Hget Hid. rewrite (get_responses_from_get _ _ _ _ Hget).
  unfold get_responses_body, dict_get. rewrite Hid. reflexivity.
Qed.

(** [check_cert] on the three kinds of blob: in date, out of date, not a
    certificate. *)
Lemma check_cert_samples :
  check_cert sample_dePem sample_X509 sample_check_date "electrum.example.org" "good" []
    = (inr tt, [PrintMsg (cert_report "electrum.example.org" false)])
  /\ check_cert sample_dePem sample_X509 sample_check_date "electrum.example.org" "old" []
    = (inr tt, [PrintMsg (cert_report "electrum.example.org" true)])
  /\ check_cert sample_dePem sample_X509 sample_check_date "electrum.example.org" "junk" []
    = (inr tt, [PrintExc (OtherError "SyntaxError")]).
Proof. repeat split. Qed.

(** ** Where the code differs from the wording of the spec *)

(** C5, counterexample.  After 101 requests were queued and 101 calls of
    [send_request] made (no call is refused: [send_request] computes the
    allowance and does not consult it), 101 requests are unanswered and
    [num_requests] is negative. *)
Lemma num_requests_negative :
  size (unanswered_requests overloaded) = 101%nat
  /\ num_requests overloaded = -1
  /\ ~ (0 <= num_requests overloaded).
Proof.
  assert (H : num_requests overloaded = -1) by (vm_compute; reflexivity).
  split; [vm_compute; reflexivity|]. split; [exact H|]. rewrite H. lia.
Qed.

(** C6, counterexample.  Request 7 is queued at second 100 and sent at
    second 101; no answer comes.  At second 119 request 8 is queued and not
    sent.  At second 120 there is an unanswered request, 19 seconds have
    passed since the last request was sent, and the transport has been idle
    for these 19 seconds; yet [has_timed_out] answers false, for the stamp
    it reads was taken one second ago, when request 8 was queued. *)
Lemma has_timed_out_counts_from_queueing :
  has_timed_out 120 (run requeued (fresh 99)) = inr false
  /\ unanswered_requests (run requeued (fresh 99)) !! KInt 7 = Some request_7
  /\ spec_last_request_send_time requeued (fresh 99) None = Some 101%Q
  /\ (10 < 120 - 101)%Q
  /\ (10 < pipe_idle_time (pipe (run requeued (fresh 99))))%Q
  /\ request_time (run requeued (fresh 99)) = Some 119%Q.
Proof.
  repeat split.
Qed.

(** C8, counterexample.  With request 7 unanswered, a second request under
    the id 7 is queued and sent: [send_request] returns [True] and the table
    now holds the second request under 7, the first one is gone. *)
Lemma send_request_replaces_silently :
  unanswered_requests (queue_request 117 request_7_again (pending_7 [] 0)) !! KInt 7
    = Some request_7
  /\ returned_value (send_request (queue_request 117 request_7_again (pending_7 [] 0)))
      = Some true
  /\ unanswered_requests
       (state_of (send_request (queue_request 117 request_7_again (pending_7 [] 0))))
       !! KInt 7 = Some request_7_again
  /\ request_7_again <> request_7.
Proof.
  repeat split. discriminate.
Qed.

(** * Further properties *)

(** ** Strings *)

Lemma string_append_cons (c : Ascii.ascii) (a b : string) :
  String c a +:+ b = String c (a +:+ b).
Proof. reflexivity. Qed.

Lemma string_append_nil (b : string) : EmptyString +:+ b = b.
Proof. reflexivity. Qed.

Lemma string_length_append (a b : string) :
  String.length (a +:+ b) = (String.length a + String.length b)%nat.
Proof.
  induction a as [|c a IH]; [reflexivity|].
  rewrite string_append_cons. simpl. rewrite IH. reflexivity.
Qed.

Lemma string_append_assoc (a b c : string) : (a +:+ b) +:+ c = a +:+ (b +:+ c).
Proof.
  induction a as [|x a IH]; [reflexivity|].
  rewrite !string_append_cons, IH. reflexivity.
Qed.

Lemma endswith_spec (s suffix : string) :
  endswith s suffix = true <-> exists before, s = before +:+ suffix.
Proof.
  induction s as [|c s IH].
  - change (endswith EmptyString suffix)
      with (String.eqb EmptyString suffix || false).
    rewrite orb_false_r, String.eqb_eq. split.
    + intros <-. exists EmptyString. reflexivity.
    + intros [[|? ?] H].
      * rewrite string_append_nil in H. congruence.
      * rewrite string_append_cons in H. discriminate.
  - change (endswith (String c s) suffix)
      with (String.eqb (String c s) suffix || endswith s suffix).
    rewrite orb_true_iff, String.eqb_eq, IH. split.
    + intros [<- | [before ->]].
      * exists EmptyString. reflexivity.
      * exists (String c before). reflexivity.
    + intros [[|c' before] H].
      * left. exact H.
      * right. rewrite string_append_cons in H. injection H as _ ->.
        exists before. reflexivity.
Qed.

Lemma string_prefix_cons (a b : Ascii.ascii) (s1 s2 : string) :
  String.prefix (String a s1) (String b s2) =
    if Ascii.ascii_dec a b then String.prefix s1 s2 else false.
Proof. reflexivity. Qed.

Lemma startswith_wildcard (val : string) :
  startswith val "*." = true <-> exists domain, val = "*." +:+ domain.
Proof.
  unfold startswith. split.
  - destruct val as [|a [|b val]]; [discriminate| |].
    + rewrite string_prefix_cons. destruct (Ascii.ascii_dec _ a); discriminate.
    + rewrite !string_prefix_cons.
      destruct (Ascii.ascii_dec _ a) as [<-|]; [|discriminate].
      destruct (Ascii.ascii_dec _ b) as [<-|]; [|discriminate].
      intros _. exists val. reflexivity.
  - intros [domain ->]. rewrite !string_append_cons, !string_prefix_cons.
    destruct (Ascii.ascii_dec _ _) as [_|H]; [|destruct H; reflexivity].
    destruct (Ascii.ascii_dec _ _) as [_|H]; [|destruct H; reflexivity].
    destruct domain; reflexivity.
Qed.

Lemma from_1_wildcard (domain : string) :
  from_1 ("*." +:+ domain) = "." +:+ domain.
Proof. reflexivity. Qed.

(** ** [_match_hostname] *)

(** X1.  Against a certificate name that does not begin with ["*."], a host
    name matches exactly when it is that name. *)
Theorem match_hostname_plain (name val : string) :
  startswith val "*." = false ->
  (_match_hostname name val = true <-> val = name).
Proof.
  intros Hw. unfold _match_hostname.
  destruct (String.eqb_spec val name) as [->|Hne]; [tauto|].
  rewrite Hw, andb_false_l. split; [discriminate | congruence].
Qed.

(** X2.  Against the wildcard name ["*." + domain], a host name matches
    exactly when it is that very string or ends with ["." + domain],
    whatever stands before the dot: nothing, one label or several. *)
Theorem match_hostname_wildcard (name domain : string) :
  _match_hostname name ("*." +:+ domain) = true <->
  name = "*." +:+ domain \/ exists before, name = before +:+ "." +:+ domain.
Proof.
  unfold _match_hostname.
  destruct (String.eqb_spec ("*." +:+ domain) name) as [<-|Hne].
  - split; auto.
  - assert (Hs : startswith ("*." +:+ domain) "*." = true)
      by (apply startswith_wildcard; eauto).
    rewrite Hs, from_1_wildcard, andb_true_l, endswith_spec. split.
    + intros H. right. exact H.
    + intros [H | H]; [congruence | exact H].
Qed.

(** X3.  The wildcard name ["*." + domain] never matches the bare
    [domain]. *)
Theorem match_hostname_wildcard_not_bare (domain : string) :
  _match_hostname domain ("*." +:+ domain) = false.
Proof.
  apply not_true_is_false. unfold _match_hostname.
  destruct (String.eqb_spec ("*." +:+ domain) domain) as [Heq|Hne].
  - intros _. apply (f_equal String.length) in Heq.
    rewrite string_length_append in Heq. simpl in Heq. lia.
  - assert (Hs : startswith ("*." +:+ domain) "*." = true)
      by (apply startswith_wildcard; eauto).
    rewrite Hs, from_1_wildcard, andb_true_l, endswith_spec. intros [before Heq].
    apply (f_equal String.length) in Heq.
    rewrite !string_length_append in Heq. simpl in Heq. lia.
Qed.

(** ** The host of a server string *)

Lemma colons_append (a b : string) : colons (a +:+ b) = (colons a + colons b)%nat.
Proof.
  induction a as [|c a IH]; [reflexivity|].
  rewrite string_append_cons. simpl. rewrite IH. lia.
Qed.

Lemma rsplit_colon_None (s : string) : rsplit_colon s = None <-> colons s = 0%nat.
Proof.
  induction s as [|c s IH]; simpl; [tauto|].
  destruct (rsplit_colon s) as [[before after]|].
  - split; [discriminate|]. intros H.
    assert (H0 : colons s = 0%nat) by lia. apply IH in H0. discriminate.
  - assert (H0 : colons s = 0%nat) by (apply IH; reflexivity).
    rewrite H0. destruct (Ascii.eqb c colon); split; auto; discriminate.
Qed.

(** [rsplit_colon] cuts at the last colon. *)
Lemma rsplit_colon_Some (s before after : string) :
  rsplit_colon s = Some (before, after) <->
  s = before +:+ String colon after /\ colons after = 0%nat.
Proof.
  revert before after. induction s as [|c s IH]; intros before after; simpl.
  - split; [discriminate|]. intros [H _]. destruct before; discriminate.
  - destruct (rsplit_colon s) as [[b a]|] eqn:Hs.
    + destruct (proj1 (IH b a) eq_refl) as [-> Ha]. split.
      * intros [= <- <-]. auto.
      * intros [H Hc]. destruct before as [|c' before].
        -- rewrite string_append_nil in H. injection H as _ H.
           apply (f_equal colons) in H. rewrite colons_append in H.
           simpl in H. rewrite ?Ascii.eqb_refl in H. lia.
        -- rewrite string_append_cons in H. injection H as -> H.
           assert (Hr : Some (b, a) = Some (before, after))
             by (apply IH; auto).
           injection Hr as -> ->. reflexivity.
    + apply rsplit_colon_None in Hs. split.
      * destruct (Ascii.eqb_spec c colon) as [->|]; [|discriminate].
        intros [= <- <-]. auto.
      * intros [H Hc]. destruct before as [|c' before].
        -- rewrite string_append_nil in H. injection H as -> ->.
           rewrite Ascii.eqb_refl. reflexivity.
        -- rewrite string_append_cons in H. injection H as _ H.
           apply (f_equal colons) in H. rewrite colons_append in H.
           simpl in H. rewrite ?Ascii.eqb_refl in H. lia.
Qed.

(** X4.  [__init__] takes for host what stands before the last two colons
    of the server string: the host comes out as [host] exactly when the
    string is [host:port:protocol] with no colon in port and protocol.  The
    host itself may hold colons. *)
Theorem Interface_host_inr (srv host : string) :
  Interface_host srv = inr host <->
  exists port protocol,
    srv = host +:+ String colon (port +:+ String colon protocol)
    /\ colons port = 0%nat /\ colons protocol = 0%nat.
Proof.
  unfold Interface_host, rsplit_colon_2.
  destruct (rsplit_colon srv) as [[rest last]|] eqn:H1.
  - apply rsplit_colon_Some in H1 as [-> Hl].
    destruct (rsplit_colon rest) as [[first middle]|] eqn:H2.
    + apply rsplit_colon_Some in H2 as [-> Hm]. split.
      * intros [= <-]. exists middle, last.
        rewrite string_append_assoc, string_append_cons. auto.
      * intros (port & protocol & H & Hp & Hq).
        rewrite string_append_assoc, string_append_cons in H.
        assert (Hr : rsplit_colon (host +:+ String colon (port +:+ String colon protocol))
                     = Some (host +:+ String colon port, protocol)).
        { apply rsplit_colon_Some. split; [|exact Hq].
          rewrite string_append_assoc, string_append_cons. reflexivity. }
        rewrite <- H in Hr.
        assert (Hr' : rsplit_colon ((first +:+ String colon middle) +:+ String colon last)
                      = Some (first +:+ String colon middle, last))
          by (apply rsplit_colon_Some; auto).
        rewrite string_append_assoc, string_append_cons in Hr'.
        rewrite Hr' in Hr. injection Hr as Hr _.
        assert (Ha : rsplit_colon (first +:+ String colon middle) = Some (first, middle))
          by (apply rsplit_colon_Some; auto).
        assert (Hb : rsplit_colon (host +:+ String colon port) = Some (host, port))
          by (apply rsplit_colon_Some; auto).
        rewrite Hr in Ha. rewrite Ha in Hb. injection Hb as -> _. reflexivity.
    + apply rsplit_colon_None in H2. split; [discriminate|].
      intros (port & protocol & H & Hp & Hq).
      apply (f_equal colons) in H. rewrite !colons_append in H. simpl in H.
      rewrite colons_append in H. simpl in H. rewrite ?Ascii.eqb_refl in H. lia.
  - apply rsplit_colon_None in H1. split; [discriminate|].
    intros (port & protocol & -> & Hp & Hq).
    rewrite colons_append in H1. simpl in H1. rewrite ?Ascii.eqb_refl in H1. lia.
Qed.

(** X5.  Building an [Interface] fails with [ValueError] exactly when the
    server string holds fewer than two colons. *)
Theorem Interface_host_ValueError (srv : string) :
  Interface_host srv = inl (OtherError "ValueError") <-> (colons srv < 2)%nat.
Proof.
  unfold Interface_host, rsplit_colon_2.
  destruct (rsplit_colon srv) as [[rest last]|] eqn:H1.
  - apply rsplit_colon_Some in H1 as [-> Hl].
    rewrite colons_append. simpl. rewrite ?Ascii.eqb_refl, Hl.
    destruct (rsplit_colon rest) as [[first middle]|] eqn:H2.
    + apply rsplit_colon_Some in H2 as [-> Hm].
      rewrite colons_append. simpl. rewrite ?Ascii.eqb_refl.
      split; [discriminate | lia].
    + apply rsplit_colon_None in H2. rewrite H2. split; [lia | reflexivity].
  - apply rsplit_colon_None in H1. rewrite H1. split; [lia | reflexivity].
Qed.

(** ** A whole call of [get_responses] *)

Lemma get_responses_body_frame v rs self :
  match get_responses_body v rs self with
  | Continue _ s | Break _ s | Throw _ s =>
      unanswered_requests s ⊆ unanswered_requests self
      /\ unsent_requests s = unsent_requests self
      /\ last_ping s = last_ping self
      /\ last_request s = last_request self
  end.
Proof.
  unfold get_responses_body. destruct v; simpl; auto.
  destruct (is_None _); [auto|].
  destruct (hash_key _); [|auto].
  destruct (popped_truthy _); simpl; (split; [apply delete_subseteq | auto]).
Qed.

Lemma get_responses_loop_frame inbox : forall rs self,
  unanswered_requests (state_of (get_responses_loop inbox rs self))
    ⊆ unanswered_requests self
  /\ unsent_requests (state_of (get_responses_loop inbox rs self)) = unsent_requests self
  /\ last_ping (state_of (get_responses_loop inbox rs self)) = last_ping self
  /\ last_request (state_of (get_responses_loop inbox rs self)) = last_request self.
Proof.
  induction inbox as [|v inbox IH]; intros rs self; [simpl; auto|].
  simpl.
  match goal with
  | |- context [get_responses_body v rs ?s] =>
      pose proof (get_responses_body_frame v rs s) as Hb;
      destruct (get_responses_body v rs s) as [rs1 s1|rs1 s1|e s1]
  end; simpl in *; auto.
  destruct Hb as (H1 & H2 & H3 & H4).
  destruct (IH rs1 s1) as (I1 & I2 & I3 & I4).
  repeat split; try congruence. etrans; eauto.
Qed.

(** X6.  A call of [get_responses], however it ends, only takes entries
    out of the table of unanswered requests; it leaves the queue of unsent
    requests, [last_ping] and [request_time] as they were. *)
Theorem get_responses_frame self :
  unanswered_requests (state_of (get_responses self)) ⊆ unanswered_requests self
  /\ unsent_requests (state_of (get_responses self)) = unsent_requests self
  /\ last_ping (state_of (get_responses self)) = last_ping self
  /\ request_time (state_of (get_responses self)) = request_time self.
Proof.
  unfold get_responses, get_responses_from.
  destruct (get_responses_loop_frame (incoming (pipe self)) [] self) as (H1 & H2 & H3 & _).
  repeat split; auto. apply request_time_get_responses_loop.
Qed.

Lemma get_responses_loop_sentinel inbox : forall rs self,
  Forall (fun pr : response_pair => snd pr <> None) rs ->
  match get_responses_loop inbox rs self with
  | Returned out _ =>
      exists front, out = front ++ [(None, None)]
                    /\ Forall (fun pr : response_pair => snd pr <> None) front
  | Awaiting out _ => Forall (fun pr : response_pair => snd pr <> None) out
  | Raised _ _ => True
  end.
Proof.
  induction inbox as [|v inbox IH]; intros rs self Hrs; simpl; [exact Hrs|].
  match goal with
  | |- context [get_responses_body v rs ?s] =>
      assert (Hb : match get_responses_body v rs s with
                   | Continue out _ => Forall (fun pr : response_pair => snd pr <> None) out
                   | Break out _ => out = rs ++ [(None, None)]
                   | Throw _ _ => True
                   end)
  end.
  { unfold get_responses_body. destruct v; simpl; try reflexivity.
    destruct (is_None _).
    - apply Forall_app. split; [exact Hrs|]. repeat constructor. discriminate.
    - destruct (hash_key _); [|exact I].
      destruct (popped_truthy _); [|reflexivity].
      apply Forall_app. split; [exact Hrs|]. repeat constructor. discriminate. }
  destruct (get_responses_body _ _ _) as [rs1 s1|rs1 s1|e s1]; [|subst; eauto|exact I].
  apply IH, Hb.
Qed.

(** X7.  A call of [get_responses] that returns has [(None, None)] as the
    last pair of its list and nowhere before: every earlier pair carries a
    message.  The call returns on nothing but the closed connection or the
    misbehaving server. *)
Theorem get_responses_returns_on_sentinel self :
  match get_responses self with
  | Returned out _ =>
      exists front, out = front ++ [(None, None)]
                    /\ Forall (fun pr : response_pair => snd pr <> None) front
  | Awaiting out _ => Forall (fun pr : response_pair => snd pr <> None) out
  | Raised _ _ => True
  end.
Proof.
  apply get_responses_loop_sentinel. constructor.
Qed.

Lemma pair_explained_weaken before after after' pr :
  after' ⊆ after -> pair_explained before after pr -> pair_explained before after' pr.
Proof.
  intros Hsub. destruct pr as [[req|] [[]|]]; simpl; auto.
  intros (v & k & H1 & H2 & H3 & H4 & H5). exists v, k.
  repeat split; auto. eapply lookup_weaken_None; eauto.
Qed.

Lemma get_responses_body_explained before v rs self :
  unanswered_requests self ⊆ before ->
  Forall (pair_explained before (unanswered_requests self)) rs ->
  match get_responses_body v rs self with
  | Continue out s | Break out s =>
      Forall (pair_explained before (unanswered_requests s)) out
  | Throw _ _ => True
  end.
Proof.
  intros Hsub Hrs. unfold get_responses_body.
  assert (Hend : forall s : Interface,
            unanswered_requests s = unanswered_requests self ->
            Forall (pair_explained before (unanswered_requests s)) (rs ++ [(None, None)])).
  { intros s ->. apply Forall_app. split; [exact Hrs|]. repeat constructor. }
  destruct v; simpl; try (apply Hend; reflexivity).
  unfold dict_get. destruct (d !! "id") as [v|] eqn:Hid; simpl.
  - destruct (is_None v) eqn:Hv.
    + apply Forall_app. split; [exact Hrs|]. repeat constructor. simpl.
      unfold dict_get. rewrite Hid. destruct v; try discriminate. reflexivity.
    + destruct (hash_key v) as [k|] eqn:Hk; [|exact I].
      assert (Hrs' : Forall (pair_explained before
                       (delete k (unanswered_requests self))) rs).
      { eapply Forall_impl; [exact Hrs|]. intros pr.
        apply pair_explained_weaken, delete_subseteq. }
      destruct (unanswered_requests self !! k) as [req|] eqn:Hreq; simpl.
      * destruct (tuple_truthy req); simpl.
        -- apply Forall_app. split; [exact Hrs'|]. repeat constructor. simpl.
           exists v, k. repeat split; auto.
           ++ eapply lookup_weaken; eauto.
           ++ apply lookup_delete_eq.
        -- apply Forall_app. split; [exact Hrs'|]. repeat constructor.
      * apply Forall_app. split; [exact Hrs'|]. repeat constructor.
  - apply Forall_app. split; [exact Hrs|]. repeat constructor. simpl.
    unfold dict_get. rewrite Hid. reflexivity.
Qed.

Lemma get_responses_loop_explained before inbox : forall rs self,
  unanswered_requests self ⊆ before ->
  Forall (pair_explained before (unanswered_requests self)) rs ->
  match get_responses_loop inbox rs self with
  | Returned out s | Awaiting out s =>
      Forall (pair_explained before (unanswered_requests s)) out
  | Raised _ _ => True
  end.
Proof.
  induction inbox as [|v inbox IH]; intros rs self Hsub Hrs; simpl; [exact Hrs|].
  match goal with
  | |- context [get_responses_body v rs ?s] =>
      pose proof (get_responses_body_explained before v rs s Hsub Hrs) as Hb;
      pose proof (get_responses_body_frame v rs s) as Hf;
      destruct (get_responses_body v rs s) as [rs1 s1|rs1 s1|e s1]
  end; [|exact Hb|exact I].
  apply IH; [|exact Hb]. destruct Hf as [Hf _]. etrans; [exact Hf|exact Hsub].
Qed.

(** X8.  Every pair of the list that [get_responses] returns, or holds
    when it is suspended, is explained by the table it found: a pair with a
    request carries an answer whose id the table held that very request
    under, and the id is gone from the table afterwards; a pair without
    request carries a dict without id, or it is [(None, None)]. *)
Theorem get_responses_pairs_explained self :
  match get_responses self with
  | Returned out s | Awaiting out s =>
      Forall (pair_explained (unanswered_requests self) (unanswered_requests s)) out
  | Raised _ _ => True
  end.
Proof.
  apply get_responses_loop_explained; [reflexivity | constructor].
Qed.

(** ** Suspending and resuming [get_responses] *)

Lemma get_responses_body_set_pipe p v rs self :
  get_responses_body v rs (set_pipe p self) =
    match get_responses_body v rs self with
    | Continue out s => Continue out (set_pipe p s)
    | Break out s => Break out (set_pipe p s)
    | Throw e s => Throw e (set_pipe p s)
    end.
Proof.
  unfold get_responses_body. destruct v; simpl; try reflexivity.
  destruct (is_None _); [reflexivity|].
  destruct (hash_key _); [|reflexivity].
  destruct (popped_truthy _); reflexivity.
Qed.

(** Only what the pipe has sent, its idle time and its state matter to the
    loop once there is a value to read: the loop itself sets what is left to
    deliver. *)
Lemma get_responses_loop_set_pipe inbox rs self p1 p2 :
  inbox <> [] ->
  sent p1 = sent p2 -> idle p1 = idle p2 -> broken p1 = broken p2 ->
  get_responses_loop inbox rs (set_pipe p1 self) =
  get_responses_loop inbox rs (set_pipe p2 self).
Proof.
  intros Hne Hs Hi Hb. destruct inbox as [|v inbox]; [congruence|].
  simpl. rewrite Hs, Hi, Hb. reflexivity.
Qed.

Lemma get_responses_loop_awaiting_pipe xs : forall rs self rs' self',
  get_responses_loop xs rs self = Awaiting rs' self' ->
  incoming (pipe self) = xs ->
  incoming (pipe self') = [].
Proof.
  induction xs as [|x xs IH]; intros rs self rs' self' H Hin; simpl in H.
  - injection H as _ <-. exact Hin.
  - match type of H with
    | context [get_responses_body x rs ?s] =>
        pose proof (get_responses_body_pipe x rs s) as Hp;
        destruct (get_responses_body x rs s) as [rs1 s1|rs1 s1|e s1]
    end; try discriminate.
    apply (IH _ _ _ _ H). rewrite Hp. reflexivity.
Qed.

Lemma get_responses_loop_resume xs : forall ys rs self rs' self',
  get_responses_loop xs rs self = Awaiting rs' self' ->
  get_responses_loop (xs ++ ys) rs self = get_responses_loop ys rs' self'.
Proof.
  induction xs as [|x xs IH]; intros ys rs self rs' self' H.
  - simpl in H. injection H as <- <-. reflexivity.
  - simpl in H. simpl.
    rewrite get_responses_body_set_pipe in H.
    rewrite get_responses_body_set_pipe.
    destruct (get_responses_body x rs self) as [rs1 s1|rs1 s1|e s1]; try discriminate.
    rewrite <- (IH ys _ _ _ _ H).
    destruct (xs ++ ys) as [|z zs] eqn:Hz.
    + apply app_eq_nil in Hz as [-> ->]. reflexivity.
    + apply get_responses_loop_set_pipe; [discriminate | reflexivity..].
Qed.

Lemma with_incoming_nil self : incoming (pipe self) = [] -> with_incoming [] self = self.
Proof.
  destruct self as [? [inc ? ? ?] ? ? ? ? ? ? ?]. simpl. intros ->. reflexivity.
Qed.

(** X9.  Suspension is transparent.  If a call of [get_responses] has read
    [xs] and stays suspended holding [rs'], then a call that finds [xs]
    followed by [ys] in the pipe does what the suspended call does when it
    is resumed on [ys]. *)
Theorem get_responses_resume xs ys self rs' self' :
  get_responses (with_incoming xs self) = Awaiting rs' self' ->
  get_responses (with_incoming (xs ++ ys) self) =
    get_responses_from rs' (with_incoming ys self').
Proof.
  unfold get_responses, get_responses_from. simpl. intros H.
  pose proof (get_responses_loop_awaiting_pipe _ _ _ _ _ H eq_refl) as Hin.
  pose proof (get_responses_loop_resume _ ys _ _ _ _ H) as Hr.
  destruct ys as [|y ys].
  - rewrite app_nil_r in *. rewrite with_incoming_nil by exact Hin. exact H.
  - transitivity (get_responses_loop (y :: ys) rs' self').
    + rewrite <- Hr. unfold with_incoming.
      apply get_responses_loop_set_pipe; [|reflexivity..].
      destruct xs; discriminate.
    + simpl. reflexivity.
Qed.

(** ** The send path *)

(** What any call of [send_request] on a non-empty queue does to the queue
    and to the size of the table. *)
Lemma send_request_step self e rest :
  unsent_requests self = e :: rest ->
  unsent_requests (state_of (send_request self)) = rest
  /\ (size (unanswered_requests (state_of (send_request self)))
      <= S (size (unanswered_requests self)))%nat
  /\ (forall frame s, send_request self <> Awaiting frame s).
Proof.
  intros Hq. unfold send_request. rewrite Hq. destruct e as [prio req].
  destruct (make_dict req) as [?|d]; simpl; [simpl; repeat split; first [reflexivity | lia | (intros ? ?; discriminate)]|].
  destruct (pipe_send_all _ _); [simpl; repeat split; first [reflexivity | lia | (intros ? ?; discriminate)]|].
  destruct (req !! 2%nat) as [i|]; [|simpl; repeat split; first [reflexivity | lia | (intros ? ?; discriminate)]].
  destruct (hash_key i) as [k|]; [|simpl; repeat split; first [reflexivity | lia | (intros ? ?; discriminate)]].
  simpl. repeat split; try (intros ? ?; discriminate).
  rewrite map_size_insert. destruct (unanswered_requests self !! k); simpl; lia.
Qed.

(** X10.  [send_request] never returns [False]: it returns [True], raises,
    or stays suspended on the empty queue. *)
Theorem send_request_never_returns_False self :
  returned_value (send_request self) <> Some false.
Proof.
  unfold send_request.
  destruct (unsent_requests self) as [|[prio req] rest]; [discriminate|].
  destruct (make_dict req) as [?|d]; simpl; [discriminate|].
  destruct (pipe_send_all _ _); [discriminate|].
  destruct (req !! 2%nat) as [i|]; [|discriminate].
  destruct (hash_key i); discriminate.
Qed.

(** X11.  When the write to the transport raises, or the queued request is
    not a triple, [send_request] raises [NameError] out of its handler; the
    request has left the queue and is not put back, the table and the pipe
    are as before. *)
Theorem send_request_failure_drops self prio req rest :
  unsent_requests self = (prio, req) :: rest ->
  broken (pipe self) = true \/ length req <> 3%nat ->
  send_request self = Raised NameError (set_unsent_requests rest self).
Proof.
  intros Hq Hfail. unfold send_request. rewrite Hq.
  destruct req as [|m [|a [|i [|x req]]]]; try reflexivity.
  destruct Hfail as [Hb | Hl]; [|simpl in Hl; congruence].
  simpl. unfold pipe_send_all. simpl. rewrite Hb. reflexivity.
Qed.

(** X12.  A successful [send_request] writes exactly one message to the
    transport: a dict with the three members [method], [params] and [id],
    which read back as the components of the request. *)
Theorem send_request_wire_format self prio m a i rest k :
  unsent_requests self = (prio, [m; a; i]) :: rest ->
  broken (pipe self) = false ->
  hash_key i = Some k ->
  exists d,
    sent (pipe (state_of (send_request self))) = sent (pipe self) ++ [PDict d]
    /\ d !! "method" = Some m /\ d !! "params" = Some a /\ d !! "id" = Some i
    /\ dom d = {["method"; "params"; "id"]}.
Proof.
  intros Hq Hb Hk.
  exists (<["method" := m]> (<["params" := a]> (<["id" := i]> ∅))).
  split; [|split; [|split; [|split]]].
  - unfold send_request. rewrite Hq. simpl. unfold pipe_send_all. simpl.
    rewrite Hb, Hk. reflexivity.
  - apply lookup_insert_eq.
  - rewrite lookup_insert_ne by discriminate. apply lookup_insert_eq.
  - rewrite !lookup_insert_ne by discriminate. apply lookup_insert_eq.
  - rewrite !dom_insert_L, dom_empty_L. set_solver.
Qed.

Lemma unanswered_requests_set m self :
  unanswered_requests (set_unanswered_requests m self) = m.
Proof. reflexivity. Qed.

(** X13.  Sending and receiving compose.  After [send_request] has sent the
    request [(m, a, i)], an incoming dict whose id is [i] is paired with
    that request and the id leaves the table: when that dict is all the
    pipe holds, the call is suspended holding the earlier pairs and this
    one, with the table as it was before the request was sent, less [k];
    and however the call ends, its list starts with the earlier pairs and
    this one.  If the id was not in the table before the request was sent,
    the table without [k] is the table from before. *)
Theorem send_then_answer self prio m a i rest k inbox d rs :
  unsent_requests self = (prio, [m; a; i]) :: rest ->
  broken (pipe self) = false ->
  hash_key i = Some k ->
  is_None i = false ->
  d !! "id" = Some i ->
  get_responses_from rs (with_incoming (PDict d :: inbox) (state_of (send_request self)))
  = get_responses_from (rs ++ [(Some [m; a; i], Some (PDict d))])
      (set_unanswered_requests (delete k (<[k := [m; a; i]]> (unanswered_requests self)))
         (with_incoming inbox (state_of (send_request self))))
  /\ (unanswered_requests self !! k = None ->
      delete k (<[k := [m; a; i]]> (unanswered_requests self)) = unanswered_requests self)
  /\ get_responses_from rs (with_incoming [PDict d] (state_of (send_request self)))
     = Awaiting (rs ++ [(Some [m; a; i], Some (PDict d))])
         (set_unanswered_requests (delete k (unanswered_requests self))
            (with_incoming [] (state_of (send_request self))))
  /\ match get_responses_from rs
             (with_incoming (PDict d :: inbox) (state_of (send_request self))) with
     | Returned out s | Awaiting out s =>
         (exists more, out = rs ++ (Some [m; a; i], Some (PDict d)) :: more)
         /\ unanswered_requests s ⊆ delete k (unanswered_requests self)
     | Raised _ s => unanswered_requests s ⊆ delete k (unanswered_requests self)
     end.
Proof.
  intros Hq Hb Hk Hn Hid.
  assert (Hs : send_request self =
    Returned true
      (set_unanswered_requests (<[k := [m; a; i]]> (unanswered_requests self))
         (set_pipe {| incoming := incoming (pipe self);
                      sent := sent (pipe self) ++
                        [PDict (<["method" := m]> (<["params" := a]> (<["id" := i]> ∅)))];
                      idle := 0; broken := broken (pipe self) |}
            (set_unsent_requests rest self)))).
  { unfold send_request. rewrite Hq. simpl. unfold pipe_send_all. simpl.
    rewrite Hb, Hk. reflexivity. }
  assert (Hstep : forall inbox',
    get_responses_from rs (with_incoming (PDict d :: inbox') (state_of (send_request self)))
    = get_responses_from (rs ++ [(Some [m; a; i], Some (PDict d))])
        (set_unanswered_requests (delete k (<[k := [m; a; i]]> (unanswered_requests self)))
           (with_incoming inbox' (state_of (send_request self))))).
  { intros inbox'. rewrite Hs. simpl.
    erewrite (get_responses_from_paired _ rs _ d i k [m; a; i]);
      [reflexivity | reflexivity | exact Hid | exact Hn | exact Hk | | reflexivity].
    simpl. apply lookup_insert_eq. }
  split; [apply Hstep|]. split; [|split].
  - intros Hfresh. rewrite delete_insert_eq. apply delete_id, Hfresh.
  - rewrite Hstep, delete_insert_eq. apply get_responses_from_empty. reflexivity.
  - rewrite Hstep, delete_insert_eq. clear Hstep.
    pose proof (get_responses_from_outcome
      (rs ++ [(Some [m; a; i], Some (PDict d))])
      (set_unanswered_requests (delete k (unanswered_requests self))
         (with_incoming inbox (state_of (send_request self))))) as Ho.
    rewrite unanswered_requests_set in Ho.
    destruct (get_responses_from (rs ++ _) _) as [out s|out s|e s]; [| |exact Ho].
    + destruct Ho as [[more ->] Hsub]. split; [|exact Hsub].
      exists more. rewrite <- app_assoc. reflexivity.
    + destruct Ho as [[more ->] Hsub]. split; [|exact Hsub].
      exists more. rewrite <- app_assoc. reflexivity.
Qed.

(** X14.  A caller that makes no more calls of [send_request] than
    [num_requests] allows is never left suspended on an empty queue, and
    leaves at most 100 requests unanswered. *)
Theorem send_within_allowance n : forall self,
  Z.of_nat n <= num_requests self ->
  send_requests_suspend n self = false
  /\ (size (unanswered_requests (send_requests n self)) <= 100)%nat.
Proof.
  induction n as [|n IH]; intros self Hn.
  - simpl. split; [reflexivity|]. unfold num_requests in Hn. lia.
  - destruct (unsent_requests self) as [|e rest] eqn:Hq.
    { unfold num_requests in Hn. rewrite Hq in Hn. simpl in Hn. lia. }
    destruct (send_request_step self e rest Hq) as (Hrest & Hsize & Hrun).
    assert (Hn' : Z.of_nat n <= num_requests (state_of (send_request self))).
    { unfold num_requests in *. rewrite Hrest. rewrite Hq in Hn. simpl in Hn. lia. }
    destruct (IH _ Hn') as [IH1 IH2]. simpl.
    destruct (send_request self) as [b s|frame s|x s] eqn:Hs; auto.
    destruct (Hrun frame s). reflexivity.
Qed.

(** ** The queue of unsent requests *)

Lemma queue_put_perm e q : queue_put e q ≡ₚ e :: q.
Proof.
  induction q as [|e' q IH]; simpl; [reflexivity|].
  destruct (Qgtb _ _); [reflexivity|]. rewrite IH. apply perm_swap.
Qed.

Lemma queue_put_sorted e q : queue_sorted q -> queue_sorted (queue_put e q).
Proof.
  induction q as [|e' q IH]; simpl; [auto|].
  intros [Hall Hq]. destruct (Qgtb (fst e') (fst e)) eqn:Hg; simpl.
  - apply Qgtb_true in Hg. repeat split; auto.
    constructor; [lra|]. eapply Forall_impl; [exact Hall|]. simpl. intros x Hx. lra.
  - apply Qgtb_false in Hg. split; [|auto].
    rewrite queue_put_perm. constructor; auto.
Qed.

Lemma queue_put_last e q :
  Forall (fun e' => (fst e' < fst e)%Q) q -> queue_put e q = q ++ [e].
Proof.
  induction 1 as [|e' q He _ IH]; simpl; [reflexivity|].
  assert (Hg : Qgtb (fst e') (fst e) = false) by (apply Qgtb_false; lra).
  rewrite Hg, IH. reflexivity.
Qed.

(** X15.  A request queued with a time stamp later than every stamp in the
    queue goes to the end of the queue: under a clock that moves on between
    calls, requests leave in the order in which they were queued. *)
Theorem queue_request_fifo now args self :
  Forall (fun e => (fst e < now)%Q) (unsent_requests self) ->
  unsent_requests (queue_request now args self) = unsent_requests self ++ [(now, args)].
Proof.
  intros H. simpl. apply queue_put_last. exact H.
Qed.


Lemma queue_sorted_run_call now c self :
  queue_sorted (unsent_requests self) ->
  queue_sorted (unsent_requests (run_call now c self)).
Proof.
  intros H. destruct c; simpl.
  - apply queue_put_sorted, H.
  - destruct (unsent_requests self) as [|e rest] eqn:Hq.
    + unfold send_request. rewrite Hq. simpl. rewrite Hq. exact I.
    + destruct (send_request_step self e rest Hq) as (-> & _ & _). apply H.
  - unfold ping_required. destruct (Qgtb _ _); exact H.
  - destruct (get_responses_loop_frame (incoming (pipe self)) [] self) as (_ & Hu & _).
    unfold get_responses, get_responses_from. rewrite Hu. exact H.
  - exact H.
Qed.

(** X17.  On a session reached by any trace of calls from its construction
    the queue is in the order of its time stamps, so that the request
    [send_request] takes, the head, carries the smallest stamp. *)
Theorem queue_sorted_on_trace t0 srv p0 calls :
  queue_sorted (unsent_requests (run calls (Interface_init t0 srv p0))).
Proof.
  assert (H : forall self, queue_sorted (unsent_requests self) ->
                           queue_sorted (unsent_requests (run calls self))).
  { induction calls as [|[now c] calls IH]; intros self Hs; [exact Hs|].
    simpl. apply IH, queue_sorted_run_call, Hs. }
  apply H. exact I.
Qed.

(** ** Along a trace *)

Lemma closed_remotely_get_responses_loop inbox : forall rs self,
  closed_remotely self = true ->
  closed_remotely (state_of (get_responses_loop inbox rs self)) = true.
Proof.
  induction inbox as [|v inbox IH]; intros rs self H; [exact H|].
  simpl.
  match goal with
  | |- context [get_responses_body v rs ?s] =>
      assert (Hb : match get_responses_body v rs s with
                   | Continue _ s' | Break _ s' | Throw _ s' => closed_remotely s' = true
                   end)
  end.
  { unfold get_responses_body. destruct v; simpl; auto.
    destruct (is_None _); [exact H|].
    destruct (hash_key _); [|exact H].
    destruct (popped_truthy _); exact H. }
  destruct (get_responses_body _ _ _); simpl; auto.
Qed.

Lemma closed_remotely_send_request self :
  closed_remotely (state_of (send_request self)) = closed_remotely self.
Proof.
  unfold send_request.
  destruct (unsent_requests self) as [|[prio req] rest]; [reflexivity|].
  destruct (make_dict req); simpl; [reflexivity|].
  destruct (pipe_send_all _ _); [reflexivity|].
  destruct (req !! 2%nat) as [i|]; [|reflexivity].
  destruct (hash_key i); reflexivity.
Qed.

(** X18.  [closed_remotely] is never reset: once a session is marked
    closed, it stays marked whatever is called on it and whatever the
    transport does. *)
Theorem closed_remotely_stays calls : forall self,
  closed_remotely self = true ->
  closed_remotely (run calls self) = true.
Proof.
  induction calls as [|[now c] calls IH]; intros self H; [exact H|].
  simpl. apply IH. destruct c; simpl.
  - exact H.
  - rewrite closed_remotely_send_request. exact H.
  - unfold ping_required. destruct (Qgtb _ _); exact H.
  - apply closed_remotely_get_responses_loop, H.
  - exact H.
Qed.

(** X19.  On a session reached by any trace of calls from its construction,
    every entry of the table of unanswered requests is a triple
    [(method, params, id)] filed under the key of its own id. *)
Theorem unanswered_requests_on_trace t0 srv p0 calls k req :
  unanswered_requests (run calls (Interface_init t0 srv p0)) !! k = Some req ->
  exists m a i, req = [m; a; i] /\ hash_key i = Some k.
Proof.
  destruct (well_formed_run calls _ (well_formed_init t0 srv p0)) as (H & _ & _).
  apply H.
Qed.

(** ** [test_certificates] *)

Lemma check_cert_run {der certificate : Type}
    (dePem : string -> string -> exn + der)
    (X509 : der -> exn + certificate)
    (check_date : certificate -> exn + unit)
    (host cert : string) (log : list event) :
  check_cert dePem X509 check_date host cert log =
    (inr tt, log ++ [cert_output dePem X509 check_date host cert]).
Proof.
  unfold check_cert, check_cert_parse, cert_output, parse_cert, date_check_fails,
    try_except, lift, print_exc, print_msg, mbind, io_bind, mret, io_ret.
  destruct (dePem cert "CERTIFICATE") as [e|b]; [reflexivity|].
  destruct (X509 b) as [e|x]; [reflexivity|].
  destruct (check_date x) as [e|[]]; reflexivity.
Qed.

Lemma test_certificates_loop_prefix {der certificate : Type}
    (dePem : string -> string -> exn + der)
    (X509 : der -> exn + certificate)
    (check_date : certificate -> exn + unit)
    (path_join : string -> string -> string)
    (read_text : string -> exn + string)
    (mydir : string) (rest : list string) (before : list string) :
  forall (contents : list string) (log : list event),
  Forall2 (fun c cert => read_text (path_join mydir c) = inr cert) before contents ->
  test_certificates_loop dePem X509 check_date path_join read_text mydir
    (before ++ rest) log =
  test_certificates_loop dePem X509 check_date path_join read_text mydir rest
    (log ++ zip_with (cert_output dePem X509 check_date) before contents).
Proof.
  induction before as [|c before IH]; intros contents log H.
  - apply Forall2_nil_inv_l in H as ->. simpl. rewrite app_nil_r. reflexivity.
  - apply Forall2_cons_inv_l in H as (cert & contents' & Hc & H & ->).
    simpl. unfold mbind, io_bind, lift. rewrite Hc, check_cert_run.
    fold (@mbind io io_bind). rewrite (IH _ _ H). rewrite <- app_assoc. reflexivity.
Qed.

(** X20.  [test_certificates] writes one entry for each file it has read,
    in the order of the directory listing: a traceback for a blob that does
    not parse, the report of host and expiry otherwise; no content of a
    file makes it raise.  When every file of the listing can be read, it
    runs to its end; when the next file cannot be read, the exception of
    the read leaves [test_certificates], after the entries of the files
    before. *)
Theorem test_certificates_output {der certificate : Type}
    (dePem : string -> string -> exn + der)
    (X509 : der -> exn + certificate)
    (check_date : certificate -> exn + unit)
    (config_path : exn + string)
    (path_join : string -> string -> string)
    (listdir : string -> exn + list string)
    (read_text : string -> exn + string)
    (path : string) (before contents rest : list string) (log : list event) :
  config_path = inr path ->
  listdir (path_join path "certs") = inr (before ++ rest) ->
  Forall2 (fun c cert => read_text (path_join (path_join path "certs") c) = inr cert)
    before contents ->
  match rest with
  | [] =>
      test_certificates dePem X509 check_date config_path path_join listdir read_text log
      = (inr tt, log ++ zip_with (cert_output dePem X509 check_date) before contents)
  | c :: _ =>
      forall e, read_text (path_join (path_join path "certs") c) = inl e ->
      test_certificates dePem X509 check_date config_path path_join listdir read_text log
      = (inl e, log ++ zip_with (cert_output dePem X509 check_date) before contents)
  end.
Proof.
  intros Hp Hl Hr. unfold test_certificates, mbind, io_bind, lift.
  rewrite Hp, Hl. fold (@mbind io io_bind).
  rewrite (test_certificates_loop_prefix _ _ _ _ _ _ rest before contents log Hr).
  destruct rest as [|c rest]; [reflexivity|].
  intros e He. simpl. unfold mbind, io_bind, lift. rewrite He. reflexivity.
Qed.

(** ** The further properties at work on sample sessions *)

Lemma match_hostname_plain_witness :
  startswith "example.org" "*." = false
  /\ (_match_hostname "www.example.org" "example.org" = true
      <-> "example.org" = "www.example.org").
Proof.
  assert (H : startswith "example.org" "*." = false) by reflexivity.
  split; [exact H|].
  exact (match_hostname_plain "www.example.org" "example.org" H).
Defined.

(** A call suspended after a notification, resumed on the answer to
    request 7 and the closing [None]. *)
Lemma get_responses_resume_witness :
  get_responses (with_incoming [notification] (pending_7 [] 0)) =
    Awaiting [(None, Some notification)]
      (state_of (get_responses (with_incoming [notification] (pending_7 [] 0))))
  /\ get_responses (with_incoming ([notification] ++ [answer_7; PNone]) (pending_7 [] 0)) =
       get_responses_from [(None, Some notification)]
         (with_incoming [answer_7; PNone]
            (state_of (get_responses (with_incoming [notification] (pending_7 [] 0))))).
Proof.
  assert (H : get_responses (with_incoming [notification] (pending_7 [] 0)) =
    Awaiting [(None, Some notification)]
      (state_of (get_responses (with_incoming [notification] (pending_7 [] 0)))))
    by reflexivity.
  split; [exact H|].
  exact (get_responses_resume [notification] [answer_7; PNone] (pending_7 [] 0) _ _ H).
Defined.

(** Request 7 queued on a session whose socket is broken. *)
Lemma send_request_failure_drops_witness :
  unsent_requests
    (set_pipe {| incoming := []; sent := []; idle := 0; broken := true |}
       (queue_request 100 request_7 (fresh 99))) = [(100%Q, request_7)]
  /\ send_request
       (set_pipe {| incoming := []; sent := []; idle := 0; broken := true |}
          (queue_request 100 request_7 (fresh 99))) =
     Raised NameError
       (set_unsent_requests []
          (set_pipe {| incoming := []; sent := []; idle := 0; broken := true |}
             (queue_request 100 request_7 (fresh 99)))).
Proof.
  assert (Hq : unsent_requests
    (set_pipe {| incoming := []; sent := []; idle := 0; broken := true |}
       (queue_request 100 request_7 (fresh 99))) = [(100%Q, request_7)]) by reflexivity.
  split; [exact Hq|].
  exact (send_request_failure_drops _ _ _ _ Hq (or_introl eq_refl)).
Defined.

Lemma send_request_wire_format_witness :
  unsent_requests (queue_request 100 request_7 (fresh 99)) = [(100%Q, request_7)]
  /\ exists d,
       sent (pipe (state_of (send_request (queue_request 100 request_7 (fresh 99)))))
         = [] ++ [PDict d]
       /\ d !! "method" = Some (PStr "blockchain.address.get_balance")
       /\ d !! "params" = Some (PList [PStr "1BitcoinEaterAddressDontSendf59kuE"])
       /\ d !! "id" = Some (PInt 7)
       /\ dom d = {["method"; "params"; "id"]}.
Proof.
  assert (Hq : unsent_requests (queue_request 100 request_7 (fresh 99))
               = [(100%Q, [PStr "blockchain.address.get_balance";
                           PList [PStr "1BitcoinEaterAddressDontSendf59kuE"];
                           PInt 7])]) by reflexivity.
  split; [exact Hq|].
  exact (send_request_wire_format (queue_request 100 request_7 (fresh 99))
           _ _ _ (PInt 7) [] (KInt 7) Hq eq_refl eq_refl).
Defined.

Lemma send_then_answer_witness :
  unsent_requests (queue_request 100 request_7 (fresh 99)) = [(100%Q, request_7)]
  /\ answer_7_members !! "id" = Some (PInt 7)
  /\ get_responses_from []
       (with_incoming [answer_7]
          (state_of (send_request (queue_request 100 request_7 (fresh 99)))))
     = Awaiting ([] ++ [(Some request_7, Some answer_7)])
         (set_unanswered_requests
            (delete (KInt 7)
               (unanswered_requests (queue_request 100 request_7 (fresh 99))))
            (with_incoming []
               (state_of (send_request (queue_request 100 request_7 (fresh 99)))))).
Proof.
  assert (Hq : unsent_requests (queue_request 100 request_7 (fresh 99))
               = [(100%Q, [PStr "blockchain.address.get_balance";
                           PList [PStr "1BitcoinEaterAddressDontSendf59kuE"];
                           PInt 7])]) by reflexivity.
  assert (Hid : answer_7_members !! "id" = Some (PInt 7)) by reflexivity.
  pose proof (send_then_answer (queue_request 100 request_7 (fresh 99))
                _ _ _ (PInt 7) [] (KInt 7) [] answer_7_members []
                Hq eq_refl eq_refl eq_refl Hid) as (_ & _ & H3 & _).
  split; [exact Hq|]. split; [exact Hid|]. exact H3.
Defined.

Lemma send_within_allowance_witness :
  Z.of_nat 1 <= num_requests (queue_request 100 request_7 (fresh 99))
  /\ send_requests_suspend 1 (queue_request 100 request_7 (fresh 99)) = false
  /\ (size (unanswered_requests (send_requests 1 (queue_request 100 request_7 (fresh 99))))
      <= 100)%nat.
Proof.
  assert (H : Z.of_nat 1 <= num_requests (queue_request 100 request_7 (fresh 99))).
  { unfold num_requests. simpl. rewrite map_size_empty. simpl. lia. }
  split; [exact H|].
  exact (send_within_allowance 1 (queue_request 100 request_7 (fresh 99)) H).
Defined.

Lemma queue_request_fifo_witness :
  Forall (fun e : Q * request => (fst e < 101)%Q)
    (unsent_requests (queue_request 100 request_7 (fresh 99)))
  /\ unsent_requests
       (queue_request 101 request_7_again (queue_request 100 request_7 (fresh 99)))
     = unsent_requests (queue_request 100 request_7 (fresh 99))
         ++ [(101%Q, request_7_again)].
Proof.
  assert (H : Forall (fun e : Q * request => (fst e < 101)%Q)
                (unsent_requests (queue_request 100 request_7 (fresh 99)))).
  { repeat constructor. }
  split; [exact H|].
  exact (queue_request_fifo 101 request_7_again _ H).
Defined.

Lemma closed_remotely_stays_witness :
  closed_remotely (set_closed_remotely true (fresh 99)) = true
  /\ closed_remotely (run late_send (set_closed_remotely true (fresh 99))) = true.
Proof.
  split; [reflexivity|].
  exact (closed_remotely_stays late_send (set_closed_remotely true (fresh 99)) eq_refl).
Defined.

Lemma unanswered_requests_on_trace_witness :
  unanswered_requests (run late_send (fresh 99)) !! KInt 7 = Some request_7
  /\ exists m a i, request_7 = [m; a; i] /\ hash_key i = Some (KInt 7).
Proof.
  assert (H : unanswered_requests
                (run late_send (Interface_init 99 "electrum.example.org:50002:s"
                                  (pipe_with [] 0))) !! KInt 7 = Some request_7)
    by reflexivity.
  split; [exact H|].
  exact (unanswered_requests_on_trace _ _ _ late_send (KInt 7) request_7 H).
Defined.


(** A directory of two readable files; and the same directory when the
    second file is not text. *)
Lemma test_certificates_output_witness :
  test_certificates sample_dePem sample_X509 sample_check_date
    sample_config_path sample_path_join sample_listdir sample_read_text []
  = (inr tt, [] ++ zip_with (cert_output sample_dePem sample_X509 sample_check_date)
                     ["good"; "old"] ["good"; "old"])
  /\ test_certificates sample_dePem sample_X509 sample_check_date
       sample_config_path sample_path_join sample_listdir sample_read_text_binary []
     = (inl (OtherError "UnicodeDecodeError"),
        [] ++ zip_with (cert_output sample_dePem sample_X509 sample_check_date)
                ["good"] ["good"]).
Proof.
  split.
  - refine (test_certificates_output sample_dePem sample_X509 sample_check_date
              sample_config_path sample_path_join sample_listdir sample_read_text
              "/home/user/.electrum" ["good"; "old"] ["good"; "old"] [] []
              eq_refl eq_refl _).
    repeat constructor.
  - refine (test_certificates_output sample_dePem sample_X509 sample_check_date
              sample_config_path sample_path_join sample_listdir sample_read_text_binary
              "/home/user/.electrum" ["good"] ["good"] ["old"] []
              eq_refl eq_refl _ (OtherError "UnicodeDecodeError") eq_refl).
    repeat constructor.
Defined.
